(** * A shallow embedding of simpleConsolePlot.hpp (class SCP::Plot)

    The model follows the header function by function:
    - the cell buffer [printBuf] (a C array of [w*h] cells) is a list of
      cells updated by index;
    - a cell's [int8_t co] attribute is kept as its bit pattern, an integer
      in [0,256); every store into it is truncated to eight bits ([byte]);
    - a [char] is an [ascii];
    - a [double] is an exact rational when finite; the infinities used as
      the sentinels of the running bounding box are explicit constructors
      (rounding of double arithmetic is not modelled); a conversion to
      [int] truncates toward zero, and one outside the [int] range
      (undefined in C++) draws nothing;
    - an [int] expression is computed exactly and wrapped to 32 bits
      ([int32]), as compiled code does on signed overflow;
    - a [std::unordered_map] from style key to vector is an association list
      listed in iteration order; the iteration order of an unordered_map is
      unspecified, and every theorem about [render] holds for any order;
    - the printf-based [print] and the axis formats are not modelled. *)

From Stdlib Require Import ZArith QArith Qround Ascii String Lia Btauto Lqa.
From stdpp Require Import base list.

Open Scope Z_scope.

Module SCP.

(** The palette enum at namespace scope. *)
Definition BLACK : Z := 0.
Definition RED : Z := 1.
Definition GREEN : Z := 2.
Definition YELLOW : Z := 3.
Definition BLUE : Z := 4.
Definition MAGENTA : Z := 5.
Definition CYAN : Z := 6.
Definition BRIGHT_GRAY : Z := 7.
Definition DARK_GRAY : Z := 8.
Definition WHITE : Z := 15.

(** [enum{EMPTY=' ', BLOCK='\0'}] *)
Definition EMPTY : ascii := " "%char.
Definition BLOCK : ascii := "000"%char.

(** [struct Cell { char ch; int8_t co; }]; also the style key of the maps. *)
Record Cell := mkCell { ch : ascii; co : Z }.

Definition cell_eqb (a b : Cell) : bool :=
  Ascii.eqb (ch a) (ch b) && Z.eqb (co a) (co b).

(** Storing an [int] into an [int8_t] keeps its low eight bits. *)
Definition byte (z : Z) : Z := Z.land z 255.

(** The value of an [int] expression: the 32-bit two's-complement
    wrap-around of the exact result.  Signed overflow is undefined in C++;
    compiled code wraps, and so does the model. *)
Definition int32 (z : Z) : Z := (z + 2 ^ 31) mod 2 ^ 32 - 2 ^ 31.

(** [struct Point { double x, y; }] and [struct Line { Point a, b; }]. *)
Record Point := mkPoint { px : Q; py : Q }.
Record Line := mkLine { la : Point; lb : Point }.

(** A double: finite values, the two infinities, and NaN. *)
Inductive dbl := Fin (q : Q) | PInf | NInf | NaN.

Definition Qltb (x y : Q) : bool := negb (Qle_bool y x).

(** The ordering [a < b] of doubles (false whenever NaN is involved). *)
Definition dlt (a b : dbl) : bool :=
  match a, b with
  | Fin x, Fin y => Qltb x y
  | Fin _, PInf | NInf, Fin _ | NInf, PInf => true
  | _, _ => false
  end.

(** IEEE subtraction [a - b] on the values above. *)
Definition dsub (a b : dbl) : dbl :=
  match a, b with
  | Fin x, Fin y => Fin (x - y)
  | PInf, Fin _ | PInf, NInf => PInf
  | NInf, Fin _ | NInf, PInf => NInf
  | Fin _, PInf => NInf
  | Fin _, NInf => PInf
  | _, _ => NaN
  end.

(** The data members of [class Plot] ([yFormat]/[xFormat] omitted). *)
Record Plot := mkPlot {
  w : Z; h : Z;
  printBuf : list Cell;
  background : Z;
  range : bool;
  invertedY : bool;
  topLeft : dbl * dbl;
  dx : dbl; dy : dbl;
  minX : dbl; maxX : dbl; minY : dbl; maxY : dbl;
  points : list (Cell * list Point);
  lines : list (Cell * list Line) }.

Definition with_buf (s : Plot) (b : list Cell) : Plot :=
  {| w := w s; h := h s; printBuf := b; background := background s;
     range := range s; invertedY := invertedY s; topLeft := topLeft s;
     dx := dx s; dy := dy s; minX := minX s; maxX := maxX s;
     minY := minY s; maxY := maxY s; points := points s; lines := lines s |}.

Definition with_bounds (s : Plot) (x0 x1 y0 y1 : dbl) : Plot :=
  {| w := w s; h := h s; printBuf := printBuf s; background := background s;
     range := range s; invertedY := invertedY s; topLeft := topLeft s;
     dx := dx s; dy := dy s; minX := x0; maxX := x1;
     minY := y0; maxY := y1; points := points s; lines := lines s |}.

Definition with_window (s : Plot) (rg : bool) (tl : dbl * dbl) (ddx ddy : dbl)
  : Plot :=
  {| w := w s; h := h s; printBuf := printBuf s; background := background s;
     range := rg; invertedY := invertedY s; topLeft := tl;
     dx := ddx; dy := ddy; minX := minX s; maxX := maxX s;
     minY := minY s; maxY := maxY s; points := points s; lines := lines s |}.

Definition with_data (s : Plot) (ps : list (Cell * list Point))
  (ls : list (Cell * list Line)) : Plot :=
  {| w := w s; h := h s; printBuf := printBuf s; background := background s;
     range := range s; invertedY := invertedY s; topLeft := topLeft s;
     dx := dx s; dy := dy s; minX := minX s; maxX := maxX s;
     minY := minY s; maxY := maxY s; points := ps; lines := ls |}.

(** [Plot() = default]: [printBuf] is null (the empty list), the window
    members are uninitialised in C++ and start at 0 here. *)
Definition default_plot : Plot :=
  {| w := 10; h := 10; printBuf := []; background := BLACK;
     range := false; invertedY := false; topLeft := (Fin 0%Q, Fin 0%Q);
     dx := Fin 0%Q; dy := Fin 0%Q; minX := PInf; maxX := NInf;
     minY := PInf; maxY := NInf; points := []; lines := [] |}.

(** [clearPlot]: every cell becomes [{EMPTY, background<<4|background}];
    a null buffer (empty list) stays as it is. *)
Definition clearPlot (s : Plot) : Plot :=
  with_buf s (map (fun _ => mkCell EMPTY
                     (byte (Z.lor (Z.shiftl (background s) 4) (background s))))
                  (printBuf s)).

(** The element count of [new Cell[w*h]]: the [int] product [w*h]. *)
Definition alloc_count (length lines' : Z) : Z := int32 (length * lines').

(** [setSize] when [new] succeeds, that is when [alloc_count] is not
    negative: [new Cell[w*h]] then [clearPlot].  [setSize_exn] below adds
    the exception of the other case. *)
Definition setSize (s : Plot) (length lines' : Z) : Plot :=
  clearPlot
    {| w := length; h := lines';
       printBuf := repeat (mkCell EMPTY 0) (Z.to_nat (alloc_count length lines'));
       background := background s; range := range s; invertedY := invertedY s;
       topLeft := topLeft s; dx := dx s; dy := dy s; minX := minX s;
       maxX := maxX s; minY := minY s; maxY := maxY s; points := points s;
       lines := lines s |}.

(** [setSize] with its exception: a negative count makes [new] throw
    [std::bad_array_new_length] out of [setSize] ([None]). *)
Definition setSize_exn (s : Plot) (length lines' : Z) : option Plot :=
  if alloc_count length lines' <? 0 then None else Some (setSize s length lines').

(** [Plot(int length, int lines)].  When [alloc_count length lines] is
    negative the constructor throws and no plot exists; the theorems below
    use [make_plot] with a non-negative count. *)
Definition make_plot (length lines' : Z) : Plot := setSize default_plot length lines'.

Definition invertYAxis (s : Plot) (a : bool) : Plot :=
  {| w := w s; h := h s; printBuf := printBuf s; background := background s;
     range := range s; invertedY := a; topLeft := topLeft s;
     dx := dx s; dy := dy s; minX := minX s; maxX := maxX s;
     minY := minY s; maxY := maxY s; points := points s; lines := lines s |}.

(** [setDrawRange(x1, y1, x2, y2)]; [range = dx != 0]. *)
Definition setDrawRange (s : Plot) (x1 y1 x2 y2 : Q) : Plot :=
  clearPlot (with_window s (negb (Qeq_bool (x2 - x1) 0)) (Fin x1, Fin y1)
                         (Fin (x2 - x1)) (Fin (y2 - y1))).

(** [setBackgroundColor(int8_t color)] *)
Definition setBackgroundColor (s : Plot) (color : Z) : Plot :=
  {| w := w s; h := h s; printBuf := printBuf s; background := color;
     range := range s; invertedY := invertedY s; topLeft := topLeft s;
     dx := dx s; dy := dy s; minX := minX s; maxX := maxX s;
     minY := minY s; maxY := maxY s; points := points s; lines := lines s |}.

(** [clearData] *)
Definition clearData (s : Plot) : Plot :=
  with_data (with_bounds (clearPlot s) PInf NInf PInf NInf) [] [].

(** [m[k].push_back(v)] on an association list; a new key is added last. *)
Fixpoint push_back {V} (k : Cell) (v : V) (m : list (Cell * list V))
  : list (Cell * list V) :=
  match m with
  | [] => [(k, [v])]
  | (k', vs) :: m' =>
      if cell_eqb k k' then (k', vs ++ [v]) :: m' else (k', vs) :: push_back k v m'
  end.

(** [updateXYMinMax]: [if(minX > p.x) minX = p.x;] and so on. *)
Definition updateXYMinMax (s : Plot) (p : Point) : Plot :=
  with_bounds s
    (if dlt (Fin (px p)) (minX s) then Fin (px p) else minX s)
    (if dlt (maxX s) (Fin (px p)) then Fin (px p) else maxX s)
    (if dlt (Fin (py p)) (minY s) then Fin (py p) else minY s)
    (if dlt (maxY s) (Fin (py p)) then Fin (py p) else maxY s).

(** The [character == '\0'] branch of [setCell] on the target cell [c]:
    [odd] is [y%2] after the [invertedY] adjustment. *)
Definition block_cell (odd : bool) (color : Z) (c : Cell) : Cell :=
  mkCell (if Ascii.eqb (ch c) EMPTY then BLOCK else ch c)
    (byte (if odd then Z.lor (Z.land (co c) 15) (Z.shiftl color 4)
           else Z.lor (Z.land (co c) 240) color)).

(** The explicit-character branch of [setCell] on the target cell [c]. *)
Definition char_cell (bg color : Z) (character : ascii) (c : Cell) : Cell :=
  let co' :=
    if Ascii.eqb (ch c) EMPTY then byte (Z.lor (Z.land (co c) 240) color)
    else if Ascii.eqb (ch c) BLOCK then
      (if negb (Z.land (co c) 15 =? bg)
       then byte (Z.lor (Z.shiftl (co c) 4) color)
       else byte (Z.lor (Z.land (co c) 240) color))
    else if negb (Ascii.eqb (ch c) EMPTY) && negb (Ascii.eqb (ch c) character)
    then byte (Z.lor (Z.shiftl (co c) 4) color)
    else co c in
  mkCell character co'.

(** [y%2] of [setCell] after [if(invertedY) y++;] *)
Definition sub_odd (s : Plot) (y : Z) : bool :=
  negb (Z.rem (if invertedY s then y + 1 else y) 2 =? 0).

(** The offset [x+(y/2)*w] of the target cell, in [int] arithmetic; C [/]
    truncates ([Z.quot]). *)
Definition cell_offset (s : Plot) (x y : Z) : Z := int32 (x + int32 (Z.quot y 2 * w s)).

Definition cell_index (s : Plot) (x y : Z) : nat := Z.to_nat (cell_offset s x y).

(** [printBuf[x+(y/2)*w]]; an offset outside the allocation (negative, or
    past its end) is undefined behaviour in C++: [None]. *)
Definition cell_at (s : Plot) (x y : Z) : option Cell :=
  if cell_offset s x y <? 0 then None else printBuf s !! cell_index s x y.

(** The test [!(x<0||x>=w||y<0||y>=h*2)] of [setCell], [h*2] an [int]. *)
Definition in_bounds (s : Plot) (x y : Z) : bool :=
  negb ((x <? 0) || (x >=? w s) || (y <? 0) || (y >=? int32 (h s * 2))).

(** [setCell(int x, int y, int8_t color, char character)]; C [%] truncates
    ([Z.rem]).  Where [printBuf[x+(y/2)*w]] is outside the allocation
    ([cell_at] is [None]) the model writes nothing. *)
Definition setCell (s : Plot) (x y color : Z) (character : ascii) : Plot :=
  if (x <? 0) || (x >=? w s) || (y <? 0) || (y >=? int32 (h s * 2)) then s
  else
    let i := cell_index s x y in
    match cell_at s x y with
    | None => s
    | Some c =>
        let c' := if Ascii.eqb character BLOCK then block_cell (sub_odd s y) color c
                  else char_cell (background s) color character c in
        with_buf s (<[i := c']> (printBuf s))
    end.

(** Conversion of a double to [int]: truncation toward zero. *)
Definition Qtrunc (q : Q) : Z := Z.quot (Qnum q) (Zpos (Qden q)).

(** [num / d] converted to [int].  A zero divisor yields an infinity or
    NaN, and a quotient whose truncation is outside the [int] range has no
    [int] value; both conversions are undefined in C++: [None] (nothing is
    drawn). *)
Definition to_int_div (num d : Q) : option Z :=
  if Qeq_bool d 0 then None
  else
    let z := Qtrunc (num / d) in
    if (z <? - 2 ^ 31) || (2 ^ 31 <=? z) then None else Some z.

(** [(p.x-topLeft.x)*w/dx] *)
Definition map_x (s : Plot) (p : Point) : option Z :=
  match fst (topLeft s), dx s with
  | Fin ox, Fin d => to_int_div ((px p - ox) * inject_Z (w s)) d
  | _, _ => None
  end.

(** [(p.y-topLeft.y)*h*2/dy] *)
Definition map_y (s : Plot) (p : Point) : option Z :=
  match snd (topLeft s), dy s with
  | Fin oy, Fin d => to_int_div ((py p - oy) * inject_Z (h s) * inject_Z 2) d
  | _, _ => None
  end.

(** [printPoint] *)
Definition printPoint (s : Plot) (p : Point) (color : Z) (character : ascii) : Plot :=
  match map_x s p, map_y s p with
  | Some x, Some y => setCell s x y color character
  | _, _ => s
  end.

(** One pass through the body of the [while(true)] loop of [printLine]
    after its [break] test, in [int] arithmetic: the new [x1], [y1], [e1].
    [e2] is computed before [e1] changes. *)
Definition walk_step (ddx ddy sx sy x1 y1 e1 : Z) : Z * Z * Z :=
  let e2 := int32 (e1 * 2) in
  let xstep := e1 >? int32 (- ddy) in
  let e1a := if xstep then int32 (e1 - ddy) else e1 in
  let x1' := if xstep then int32 (x1 + sx) else x1 in
  let ystep := e2 <? ddx in
  let e1b := if ystep then int32 (e1a + ddx) else e1a in
  let y1' := if ystep then int32 (y1 + sy) else y1 in
  (x1', y1', e1b).

(** The [while(true)] loop of [printLine]: the list of the coordinates
    passed to [setCell], in order, when the loop reaches its [break] within
    [fuel] iterations; [None] otherwise. *)
Fixpoint line_walk (fuel : nat) (x1 y1 x2 y2 ddx ddy sx sy e1 : Z)
  : option (list (Z * Z)) :=
  match fuel with
  | O => None
  | S fuel' =>
      if (x1 =? x2) && (y1 =? y2) then Some [(x1, y1)]
      else
        let '(x1', y1', e1') := walk_step ddx ddy sx sy x1 y1 e1 in
        match line_walk fuel' x1' y1' x2 y2 ddx ddy sx sy e1' with
        | Some cs => Some ((x1, y1) :: cs)
        | None => None
        end
  end.

(** The local variables of [printLine] set up from the mapped endpoints
    ([abs] of an [int]), and the loop run for [dx+dy+1] iterations.  When
    no [int] overflows this bound is always enough (C4); with an overflow
    the C++ loop may never stop (the counterexamples of C3 and C4), and
    the model then draws nothing. *)
Definition line_cells (x1 y1 x2 y2 : Z) : option (list (Z * Z)) :=
  let ddx := int32 (Z.abs (int32 (x2 - x1))) in
  let ddy := int32 (Z.abs (int32 (y2 - y1))) in
  let sx := if x1 <? x2 then 1 else -1 in
  let sy := if y1 <? y2 then 1 else -1 in
  line_walk (S (Z.to_nat (ddx + ddy))) x1 y1 x2 y2 ddx ddy sx sy (int32 (ddx - ddy)).

(** The same loop in exact integer arithmetic, with which [line_walk]
    agrees as long as no [int] overflows. *)
Fixpoint walk_exact (fuel : nat) (x1 y1 x2 y2 ddx ddy sx sy e1 : Z)
  : option (list (Z * Z)) :=
  match fuel with
  | O => None
  | S fuel' =>
      if (x1 =? x2) && (y1 =? y2) then Some [(x1, y1)]
      else
        let e2 := e1 * 2 in
        let e1a := if e1 >? - ddy then e1 - ddy else e1 in
        let x1' := if e1 >? - ddy then x1 + sx else x1 in
        let e1b := if e2 <? ddx then e1a + ddx else e1a in
        let y1' := if e2 <? ddx then y1 + sy else y1 in
        match walk_exact fuel' x1' y1' x2 y2 ddx ddy sx sy e1b with
        | Some cs => Some ((x1, y1) :: cs)
        | None => None
        end
  end.

Definition cells_exact (x1 y1 x2 y2 : Z) : option (list (Z * Z)) :=
  let ddx := Z.abs (x2 - x1) in
  let ddy := Z.abs (y2 - y1) in
  let sx := if x1 <? x2 then 1 else -1 in
  let sy := if y1 <? y2 then 1 else -1 in
  walk_exact (S (Z.to_nat (ddx + ddy))) x1 y1 x2 y2 ddx ddy sx sy (ddx - ddy).

Definition setCells (s : Plot) (cs : list (Z * Z)) (color : Z) (character : ascii)
  : Plot :=
  fold_left (fun s c => setCell s (fst c) (snd c) color character) cs s.

(** [printLine] *)
Definition printLine (s : Plot) (l : Line) (color : Z) (character : ascii) : Plot :=
  match map_x s (la l), map_y s (la l), map_x s (lb l), map_y s (lb l) with
  | Some x1, Some y1, Some x2, Some y2 =>
      match line_cells x1 y1 x2 y2 with
      | Some cs => setCells s cs color character
      | None => s
      end
  | _, _, _, _ => s
  end.

(** [point(x, y, color, character)] *)
Definition point (s : Plot) (x y : Q) (color : Z) (character : ascii) : Plot :=
  let p := mkPoint x y in
  let s := with_data s (push_back (mkCell character color) p (points s)) (lines s) in
  if range s then printPoint s p color character else updateXYMinMax s p.

(** [line(x1, y1, x2, y2, color, character)] *)
Definition line (s : Plot) (x1 y1 x2 y2 : Q) (color : Z) (character : ascii) : Plot :=
  let l := mkLine (mkPoint x1 y1) (mkPoint x2 y2) in
  let s := with_data s (points s) (push_back (mkCell character color) l (lines s)) in
  if range s then printLine s l color character
  else updateXYMinMax (updateXYMinMax s (la l)) (lb l).

(** The two loops of [render]. *)
Definition render_lines (s : Plot) (m : list (Cell * list Line)) : Plot :=
  fold_left (fun s c =>
    fold_left (fun s l => printLine s l (co (fst c)) (ch (fst c))) (snd c) s) m s.

Definition render_points (s : Plot) (m : list (Cell * list Point)) : Plot :=
  fold_left (fun s c =>
    fold_left (fun s p => printPoint s p (co (fst c)) (ch (fst c))) (snd c) s) m s.

(** The first statement of [render]: without a drawing range the window
    is taken from the running bounding box. *)
Definition render_window (s : Plot) : Plot :=
  if range s then s
  else with_window s (range s) (minX s, minY s)
         (dsub (maxX s) (minX s)) (dsub (maxY s) (minY s)).

(** [render]: every line, then every point, is drawn over the current
    buffer. *)
Definition render (s : Plot) : Plot :=
  let s := render_window s in
  let s := render_lines s (lines s) in
  render_points s (points s).

(** Consecutive coordinates differ by at most one in each component. *)
Fixpoint chain8 (cs : list (Z * Z)) : Prop :=
  match cs with
  | c1 :: ((c2 :: _) as cs') =>
      Z.abs (fst c1 - fst c2) <= 1 /\ Z.abs (snd c1 - snd c2) <= 1 /\ chain8 cs'
  | _ => True
  end.

(** The two colours packed in an attribute byte: bits 0-3 and bits 4-7. *)
Definition lo_nib (a : Z) : Z := Z.land a 15.
Definition hi_nib (a : Z) : Z := Z.land (Z.shiftr a 4) 15.

(** A submission through the public interface. *)
Inductive submission :=
  | SubPoint (x y : Q) (color : Z) (character : ascii)
  | SubLine (x1 y1 x2 y2 : Q) (color : Z) (character : ascii).

Definition submit (s : Plot) (u : submission) : Plot :=
  match u with
  | SubPoint x y color character => point s x y color character
  | SubLine x1 y1 x2 y2 color character => line s x1 y1 x2 y2 color character
  end.

Definition submit_all (s : Plot) (us : list submission) : Plot := fold_left submit us s.

Definition endpoints (u : submission) : list Point :=
  match u with
  | SubPoint x y _ _ => [mkPoint x y]
  | SubLine x1 y1 x2 y2 _ _ => [mkPoint x1 y1; mkPoint x2 y2]
  end.

(** [lo]/[hi] are the least and greatest of [vs], or the initial
    infinities when [vs] is empty. *)
Definition axis_box (lo hi : dbl) (vs : list Q) : Prop :=
  (vs = [] /\ lo = PInf /\ hi = NInf) \/
  exists m M, lo = Fin m /\ hi = Fin M /\ In m vs /\ In M vs /\
    Forall (fun v => (m <= v <= M)%Q) vs.

Definition bbox_inv (s : Plot) (E : list Point) : Prop :=
  axis_box (minX s) (maxX s) (map px E) /\ axis_box (minY s) (maxY s) (map py E).

(** [t] differs from [s] in the cell buffer at most. *)
Definition same_frame (s t : Plot) : Prop := with_buf s (printBuf t) = t.


(** ** The writes of a drawing pass

    Every [setCell] call of a pass as a list: target column and sub-row,
    colour and glyph, in the order of the calls. *)
Definition write : Type := (Z * Z * Z * ascii)%type.

Definition apply_writes (s : Plot) (ws : list write) : Plot :=
  fold_left (fun s wr => match wr with (x, y, color, k) => setCell s x y color k end) ws s.

Definition tag (color : Z) (k : ascii) (cs : list (Z * Z)) : list write :=
  map (fun c => (fst c, snd c, color, k)) cs.

(** The coordinates [printLine] and [printPoint] pass to [setCell]. *)
Definition line_coords (s : Plot) (l : Line) : list (Z * Z) :=
  match map_x s (la l), map_y s (la l), map_x s (lb l), map_y s (lb l) with
  | Some x1, Some y1, Some x2, Some y2 =>
      match line_cells x1 y1 x2 y2 with Some cs => cs | None => [] end
  | _, _, _, _ => []
  end.

Definition point_coords (s : Plot) (p : Point) : list (Z * Z) :=
  match map_x s p, map_y s p with
  | Some x, Some y => [(x, y)]
  | _, _ => []
  end.

(** The writes of [render] once its window is set: lines, then points. *)
Definition render_writes (s : Plot) : list write :=
  flat_map (fun kv => flat_map (fun l => tag (co (fst kv)) (ch (fst kv)) (line_coords s l))
                                (snd kv)) (lines s) ++
  flat_map (fun kv => flat_map (fun p => tag (co (fst kv)) (ch (fst kv)) (point_coords s p))
                                (snd kv)) (points s).

(** The block writes that land in cell [j]: sub-row parity and colour. *)
Fixpoint cell_ops (s : Plot) (j : nat) (ws : list write) : list (bool * Z) :=
  match ws with
  | [] => []
  | (x, y, color, _) :: ws' =>
      if in_bounds s x y && (0 <=? cell_offset s x y) && Nat.eqb (cell_index s x y) j
      then (sub_odd s y, color) :: cell_ops s j ws'
      else cell_ops s j ws'
  end.

Definition run_ops (ops : list (bool * Z)) (c : Cell) : Cell :=
  fold_left (fun c oc => block_cell (fst oc) (snd oc) c) ops c.

(** The colour of the last operation on the half [o], if any. *)
Fixpoint last_col (o : bool) (ops : list (bool * Z)) : option Z :=
  match ops with
  | [] => None
  | (o', color) :: ops' =>
      match last_col o ops' with
      | Some c => Some c
      | None => if Bool.eqb o o' then Some color else None
      end
  end.

Definition opt_block (o : bool) (oc : option Z) (c : Cell) : Cell :=
  match oc with Some color => block_cell o color c | None => c end.

(** A sequence of block writes on one cell acts as its last write on each
    half. *)
Definition nf_ops (ops : list (bool * Z)) (c : Cell) : Cell :=
  opt_block true (last_col true ops) (opt_block false (last_col false ops) c).

Definition ops_ok (ops : list (bool * Z)) : Prop := Forall (fun oc => 0 <= snd oc < 16) ops.

Definition block_style (kv : Cell * list Point) : Prop :=
  ch (fst kv) = BLOCK /\ 0 <= co (fst kv) < 16.

Definition block_line_style (kv : Cell * list Line) : Prop :=
  ch (fst kv) = BLOCK /\ 0 <= co (fst kv) < 16.

(** No drawing range on a 1x1 grid; a RED block line from (0,0) to
    (10,10) and a GREEN point 'x' at the origin. *)
Definition c1_state : Plot :=
  point (line (make_plot 1 1) 0 0 10 10 RED BLOCK) 0 0 GREEN "x"%char.

(** ** Hashing the style keys

    [CellHash]: [static_cast<std::size_t>(a.ch) | static_cast<std::size_t>(a.co)<<8].
    [char] is signed (as with GCC on x86) and [co] is an [int8_t], so each
    cast sign-extends the 8-bit pattern to 64 bits. *)
Definition size_t_of_int8 (b : Z) : Z := (if b <? 128 then b else b - 256) mod 2 ^ 64.

Definition CellHash (a : Cell) : Z :=
  Z.lor (size_t_of_int8 (Z.of_nat (nat_of_ascii (ch a))))
        (Z.shiftl (size_t_of_int8 (co a)) 8 mod 2 ^ 64).

(** The buffer holds [w*h] cells. *)
Definition buf_ok (s : Plot) : Prop := length (printBuf s) = Z.to_nat (w s * h s).

(** The buffer holds as many cells as [new Cell[w*h]] allocates, [w*h] an
    [int] product. *)
Definition alloc_ok (s : Plot) : Prop :=
  length (printBuf s) = Z.to_nat (alloc_count (w s) (h s)).


(** The public member functions that change a plot. *)
Inductive api_call :=
  | CallPoint (x y : Q) (color : Z) (character : ascii)
  | CallLine (x1 y1 x2 y2 : Q) (color : Z) (character : ascii)
  | CallRender
  | CallSetSize (length lines' : Z)
  | CallSetDrawRange (x1 y1 x2 y2 : Q)
  | CallSetBackgroundColor (color : Z)
  | CallClearData
  | CallInvertYAxis (a : bool).

(** A call; [None] when it throws (only [setSize] can). *)
Definition api (s : Plot) (c : api_call) : option Plot :=
  match c with
  | CallPoint x y color character => Some (point s x y color character)
  | CallLine x1 y1 x2 y2 color character => Some (line s x1 y1 x2 y2 color character)
  | CallRender => Some (render s)
  | CallSetSize length lines' => setSize_exn s length lines'
  | CallSetDrawRange x1 y1 x2 y2 => Some (setDrawRange s x1 y1 x2 y2)
  | CallSetBackgroundColor color => Some (setBackgroundColor s color)
  | CallClearData => Some (clearData s)
  | CallInvertYAxis a => Some (invertYAxis s a)
  end.

(** A sequence of calls, stopped by the first exception. *)
Fixpoint run_calls (s : Plot) (calls : list api_call) : option Plot :=
  match calls with
  | [] => Some s
  | c :: calls' =>
      match api s c with
      | Some t => run_calls t calls'
      | None => None
      end
  end.

(** ** [print] with the default (empty) axis formats

    With [yFormat] and [xFormat] empty, as they are until
    [setYAxisFormat]/[setXAxisFormat] is called (those members are not
    modelled), [print] writes, for each row, an escape sequence for the
    colours at the start of the row and wherever the attribute byte changes,
    then each cell's glyph and a newline; at the end it resets the colours. *)
Definition ESC : ascii := "027"%char.

Definition dec_digit (d : Z) : ascii := ascii_of_nat (48 + Z.to_nat d).

(** [%d] of a value in [0,100), the only values [print] formats. *)
Definition dec2 (n : Z) : list ascii :=
  if n <? 10 then [dec_digit n] else [dec_digit (n / 10); dec_digit (n mod 10)].

(** [printf("\x1b[%d%d;%d%dm", co&0x08?9:3, co&0x07, co&0x80?10:4, co>>4&0x07)];
    the promotion of [co] to [int] sign-extends it, which leaves bits 0-7
    as they are. *)
Definition sgr (co : Z) : list ascii :=
  [ESC; "["%char] ++ dec2 (if Z.testbit co 3 then 9 else 3) ++ dec2 (Z.land co 7) ++
  [";"%char] ++ dec2 (if Z.testbit co 7 then 10 else 4) ++
  dec2 (Z.land (Z.shiftr co 4) 7) ++ ["m"%char].

(** [printf("▀")] (UTF-8) for a block cell, [putchar(ch)] otherwise. *)
Definition glyph (c : ascii) : list ascii :=
  if Ascii.eqb c BLOCK then ["226"%char; "150"%char; "128"%char] else [c].

(** The inner loop over [n] cells from index [i]: [first] is [x == 0] and
    [last] the attribute byte of the last escape (indeterminate before the
    first one, which [x == 0] makes irrelevant).  A cell past the buffer
    (undefined behaviour) gives [None]. *)
Fixpoint print_cells (buf : list Cell) (i n : nat) (first : bool) (last : Z)
  : option (list ascii) :=
  match n with
  | O => Some []
  | S n' =>
      match buf !! i with
      | None => None
      | Some c =>
          let out := negb (last =? co c) || first in
          match print_cells buf (S i) n' false (if out then co c else last) with
          | Some r => Some ((if out then sgr (co c) else []) ++ glyph (ch c) ++ r)
          | None => None
          end
      end
  end.

(** Row [y]: the cells from [printBuf+y*w], then [putchar('\n')]. *)
Definition print_row (s : Plot) (y : Z) : option (list ascii) :=
  match print_cells (printBuf s) (Z.to_nat (y * w s)) (Z.to_nat (w s)) true 0 with
  | Some r => Some (r ++ ["010"%char])
  | None => None
  end.

(** The rows in the order of the [y] loop: [0..h-1], or [h-1..0] with the
    Y axis inverted. *)
Definition print_rows (s : Plot) : list Z :=
  let ys := map Z.of_nat (seq 0 (Z.to_nat (h s))) in
  if invertedY s then rev ys else ys.

Fixpoint print_all_rows (s : Plot) (ys : list Z) : option (list ascii) :=
  match ys with
  | [] => Some []
  | y :: ys' =>
      match print_row s y, print_all_rows s ys' with
      | Some r, Some rs => Some (r ++ rs)
      | _, _ => None
      end
  end.

Definition reset_colours : list ascii := [ESC; "["%char; "0"%char; "m"%char].

(** [print]; a negative height makes the [y] loop run forever. *)
Definition print_plain (s : Plot) : option (list ascii) :=
  if h s <? 0 then None
  else match print_all_rows s (print_rows s) with
       | Some rs => Some (rs ++ reset_colours)
       | None => None
       end.

(** Where a sub-row shows on the terminal, in half-rows from the top: its
    row's position in the output, and the lower half when the write went to
    the upper nibble (the background colour of the upper-half block). *)
Definition screen_half (s : Plot) (k : nat) (y : Z) : Z :=
  2 * Z.of_nat k + (if sub_odd s y then 1 else 0).

(** The coordinate that advances on every iteration: x when [dy <= dx],
    y otherwise, oriented by its step. *)
Definition walk_major (DX DY sx sy : Z) (c : Z * Z) : Z :=
  if DY <=? DX then sx * fst c else sy * snd c.

(** A sample sequence of calls and the plot it draws. *)
Definition sample_calls : list api_call :=
  [CallSetDrawRange 0 0 4 4; CallLine 0 0 3 3 RED BLOCK; CallPoint 1 2 GREEN "x"%char;
   CallRender; CallInvertYAxis true; CallSetSize 3 3; CallClearData].

Definition sample_plot : Plot :=
  render (point (line (make_plot 4 2) 0 0 3 3 RED BLOCK) 1 2 GREEN "x"%char).

(** * Proofs *)

(** ** Attribute bytes *)

Lemma testbit_small (c n : Z) : 0 <= c < 16 -> 4 <= n -> Z.testbit c n = false.
Proof.
  intros Hc Hn. destruct (Z.eq_dec c 0) as [->|Hc0]; [apply Z.bits_0|].
  apply Z.bits_above_log2; [lia|].
  apply Z.log2_lt_pow2; [lia|]. apply Z.lt_le_trans with (2 ^ 4); [lia|].
  apply Z.pow_le_mono_r; lia.
Qed.

Lemma testbit_const_high (k n : Z) : 0 <= k < 256 -> 8 <= n -> Z.testbit k n = false.
Proof.
  intros Hk Hn. destruct (Z.eq_dec k 0) as [->|Hk0]; [apply Z.bits_0|].
  apply Z.bits_above_log2; [lia|].
  apply Z.log2_lt_pow2; [lia|]. apply Z.lt_le_trans with (2 ^ 8); [lia|].
  apply Z.pow_le_mono_r; lia.
Qed.








Lemma byte_range (z : Z) : 0 <= byte z < 256.
Proof.
  unfold byte. change 255 with (Z.ones 8). rewrite Z.land_ones by lia.
  pose proof (Z.mod_pos_bound z (2 ^ 8)). lia.
Qed.

(** A byte is determined by its two nibbles. *)
Lemma byte_ext (a b : Z) : 0 <= a < 256 -> 0 <= b < 256 ->
  lo_nib a = lo_nib b -> hi_nib a = hi_nib b -> a = b.
Proof.
  unfold lo_nib, hi_nib. change 15 with (Z.ones 4).
  rewrite !Z.land_ones, !Z.shiftr_div_pow2 by lia. change (2 ^ 4) with 16.
  intros Ha Hb Hl Hh.
  rewrite (Z.mod_small (a / 16)), (Z.mod_small (b / 16)) in Hh
    by (split; [apply Z.div_pos | apply Z.div_lt_upper_bound]; lia).
  pose proof (Z.div_mod a 16 ltac:(lia)). pose proof (Z.div_mod b 16 ltac:(lia)). lia.
Qed.

(** ** [int] arithmetic *)

Lemma int32_id (z : Z) : - 2 ^ 31 <= z < 2 ^ 31 -> int32 z = z.
Proof. intros H. unfold int32. rewrite Z.mod_small by lia. lia. Qed.

Lemma int32_range (z : Z) : - 2 ^ 31 <= int32 z < 2 ^ 31.
Proof.
  unfold int32. pose proof (Z.mod_pos_bound (z + 2 ^ 31) (2 ^ 32) ltac:(lia)). lia.
Qed.

(** ** setCell *)

Lemma setCell_out (s : Plot) (x y color : Z) (character : ascii) :
  in_bounds s x y = false -> setCell s x y color character = s.
Proof.
  unfold in_bounds, setCell. intros H. apply negb_false_iff in H. now rewrite H.
Qed.

Lemma in_bounds_iff (s : Plot) (x y : Z) :
  in_bounds s x y = true <-> 0 <= x < w s /\ 0 <= y < int32 (h s * 2).
Proof.
  unfold in_bounds. rewrite negb_true_iff, !orb_false_iff, Z.ltb_ge, Z.ltb_ge,
    !Z.geb_leb, !Z.leb_gt. lia.
Qed.

Lemma cell_at_lookup (s : Plot) (x y : Z) (c : Cell) :
  cell_at s x y = Some c -> printBuf s !! cell_index s x y = Some c.
Proof. unfold cell_at. destruct (_ <? 0); [discriminate | exact id]. Qed.

Lemma setCell_in (s : Plot) (x y color : Z) (character : ascii) (c : Cell) :
  in_bounds s x y = true -> cell_at s x y = Some c ->
  setCell s x y color character =
  with_buf s (<[cell_index s x y :=
                 if Ascii.eqb character BLOCK then block_cell (sub_odd s y) color c
                 else char_cell (background s) color character c]> (printBuf s)).
Proof.
  unfold in_bounds, setCell. intros H Hc. apply negb_true_iff in H.
  rewrite H. cbv zeta. now rewrite Hc.
Qed.

Lemma setCell_lookup (s : Plot) (x y color : Z) (character : ascii) (c : Cell) :
  in_bounds s x y = true -> cell_at s x y = Some c ->
  printBuf (setCell s x y color character) !! cell_index s x y =
  Some (if Ascii.eqb character BLOCK then block_cell (sub_odd s y) color c
        else char_cell (background s) color character c) /\
  forall j, j <> cell_index s x y ->
    printBuf (setCell s x y color character) !! j = printBuf s !! j.
Proof.
  intros Hb Hc. rewrite (setCell_in s x y color character c Hb Hc). cbn [printBuf with_buf].
  split.
  - apply list_lookup_insert_eq. eapply lookup_lt_Some. apply cell_at_lookup. exact Hc.
  - intros j Hj. apply list_lookup_insert_ne. congruence.
Qed.




Lemma setCell_out_x (s : Plot) (x y color : Z) (character : ascii) :
  x < 0 \/ w s <= x -> setCell s x y color character = s.
Proof.
  intros H. apply setCell_out. destruct (in_bounds s x y) eqn:E; [|reflexivity].
  apply in_bounds_iff in E. lia.
Qed.

(** C8 (corrected): [setCell] outside [0 <= col < w], [0 <= subrow < 2h]
    changes nothing when [h >= -2^30], that is unless the [int] product
    [h*2] wraps around to a non-negative value; a point mapped to column
    [-1] or [w] leaves the plot as it is, whatever the height. *)
Theorem setCell_clips :
  (forall (s : Plot) (x y color : Z) (character : ascii),
     - 2 ^ 30 <= h s ->
     x < 0 \/ w s <= x \/ y < 0 \/ h s * 2 <= y ->
     setCell s x y color character = s) /\
  (forall (s : Plot) (p : Point) (color : Z) (character : ascii),
     map_x s p = Some (-1) \/ map_x s p = Some (w s) ->
     printPoint s p color character = s).
Proof.
  split.
  - intros s x y color character Hh H. apply setCell_out.
    destruct (in_bounds s x y) eqn:E; [|reflexivity].
    apply in_bounds_iff in E.
    assert (int32 (h s * 2) <= h s * 2).
    { destruct (Z.lt_ge_cases (h s * 2) (2 ^ 31)).
      - rewrite int32_id by lia. lia.
      - pose proof (int32_range (h s * 2)). lia. }
    lia.
  - intros s p color character Hm. unfold printPoint.
    destruct Hm as [Hm | Hm]; rewrite Hm; destruct (map_y s p); try reflexivity;
      apply setCell_out_x; lia.
Qed.

(** C8 fails for a very negative height: in [Plot(2, -2147483647)] the
    [int] products [w*h] and [h*2] both wrap around to 2, so the buffer has
    two cells and [setCell(0, 0)] writes the first one, although the
    sub-row 0 is outside [[0, 2h)], which is empty. *)
Lemma setCell_wrapped_height_cex :
  h (make_plot 2 (-2147483647)) * 2 <= 0 /\
  printBuf (make_plot 2 (-2147483647)) = [mkCell EMPTY 0; mkCell EMPTY 0] /\
  printBuf (setCell (make_plot 2 (-2147483647)) 0 0 RED BLOCK) =
    [mkCell BLOCK RED; mkCell EMPTY 0].
Proof. split; [vm_compute; discriminate|]. split; vm_compute; reflexivity. Qed.

(** C10: [setBackgroundColor] changes the background member only; the
    buffer and the data are untouched, and the new colour shows through a
    later [clearPlot]. *)
Theorem setBackgroundColor_frame (s : Plot) (color : Z) :
  background (setBackgroundColor s color) = color /\
  printBuf (setBackgroundColor s color) = printBuf s /\
  points (setBackgroundColor s color) = points s /\
  lines (setBackgroundColor s color) = lines s /\
  w (setBackgroundColor s color) = w s /\ h (setBackgroundColor s color) = h s /\
  range (setBackgroundColor s color) = range s /\
  invertedY (setBackgroundColor s color) = invertedY s /\
  topLeft (setBackgroundColor s color) = topLeft s /\
  dx (setBackgroundColor s color) = dx s /\ dy (setBackgroundColor s color) = dy s /\
  minX (setBackgroundColor s color) = minX s /\ maxX (setBackgroundColor s color) = maxX s /\
  minY (setBackgroundColor s color) = minY s /\ maxY (setBackgroundColor s color) = maxY s /\
  printBuf (clearPlot (setBackgroundColor s color)) =
    map (fun _ => mkCell EMPTY (byte (Z.lor (Z.shiftl color 4) color))) (printBuf s).
Proof. repeat split. Qed.

(** ** Coordinate mapping *)

Lemma Qtrunc_round (q : Q) : Qtrunc q = if Qle_bool 0 q then Qfloor q else Qceiling q.
Proof.
  destruct q as [n d]. unfold Qtrunc, Qceiling, Qfloor, Qle_bool. cbn.
  rewrite Z.mul_1_r, Z.mul_0_l.
  destruct (Z.leb_spec 0 n) as [Hn|Hn].
  - apply Z.quot_div_nonneg; lia.
  - rewrite <- (Z.opp_involutive n) at 1. rewrite Z.quot_opp_l by lia.
    rewrite Z.quot_div_nonneg by lia. reflexivity.
Qed.

(** C2 (as the code does it): for a finite window with non-zero extents the
    column and the sub-row are the quotients converted to [int], i.e.
    rounded toward zero: the floor for a non-negative quotient and the
    ceiling for a negative one. *)
Theorem map_coord_truncates (s : Plot) (p : Point) (ox oy d e : Q) :
  topLeft s = (Fin ox, Fin oy) -> dx s = Fin d -> dy s = Fin e ->
  ~ d == 0 -> ~ e == 0 ->
  - 2 ^ 31 <= Qtrunc ((px p - ox) * inject_Z (w s) / d) < 2 ^ 31 ->
  - 2 ^ 31 <= Qtrunc ((py p - oy) * inject_Z (h s) * inject_Z 2 / e) < 2 ^ 31 ->
  map_x s p =
    Some (if Qle_bool 0 ((px p - ox) * inject_Z (w s) / d)
          then Qfloor ((px p - ox) * inject_Z (w s) / d)
          else Qceiling ((px p - ox) * inject_Z (w s) / d)) /\
  map_y s p =
    Some (if Qle_bool 0 ((py p - oy) * inject_Z (h s) * inject_Z 2 / e)
          then Qfloor ((py p - oy) * inject_Z (h s) * inject_Z 2 / e)
          else Qceiling ((py p - oy) * inject_Z (h s) * inject_Z 2 / e)).
Proof.
  intros Htl Hd He Hd0 He0 Rx Ry. unfold map_x, map_y, to_int_div.
  rewrite Htl, Hd, He. cbn [fst snd].
  destruct (Qeq_bool d 0) eqn:E1; [apply Qeq_bool_iff in E1; contradiction|].
  destruct (Qeq_bool e 0) eqn:E2; [apply Qeq_bool_iff in E2; contradiction|].
  cbv zeta.
  rewrite (proj2 (Z.ltb_ge _ _) (proj1 Rx)), (proj2 (Z.leb_gt _ _) (proj2 Rx)).
  rewrite (proj2 (Z.ltb_ge _ _) (proj1 Ry)), (proj2 (Z.leb_gt _ _) (proj2 Ry)).
  cbn [orb]. split; f_equal; apply Qtrunc_round.
Qed.

(** C2 fails for a negative quotient: on a 1x1 grid showing [0,2]x[0,2],
    x = -1 gives the quotient -1/2, whose floor is -1, but [printPoint]
    uses column 0: the point, left of the minimum x = 0 that
    [setDrawRange] documents, is drawn in the first column, while a point
    at the maximum x = 2 (column [w]) is clipped. *)
Lemma map_x_not_floor_cex :
  map_x (setDrawRange (make_plot 1 1) 0 0 2 2) (mkPoint (-1) 0) = Some 0 /\
  map_x (setDrawRange (make_plot 1 1) 0 0 2 2) (mkPoint (-1) 0) <>
    Some (Qfloor ((-1 - 0) * inject_Z 1 / 2)) /\
  printBuf (setDrawRange (make_plot 1 1) 0 0 2 2) = [mkCell EMPTY 0] /\
  printBuf (point (setDrawRange (make_plot 1 1) 0 0 2 2) (-1) 0 RED BLOCK) =
    [mkCell BLOCK RED] /\
  printBuf (point (setDrawRange (make_plot 1 1) 0 0 2 2) 2 0 RED BLOCK) = [mkCell EMPTY 0].
Proof.
  split; [vm_compute; reflexivity|]. split; [vm_compute; discriminate|].
  split; [|split]; vm_compute; reflexivity.
Qed.

(** ** Auto-range *)

Lemma Qle_bool_false (x y : Q) : Qle_bool x y = false -> (y < x)%Q.
Proof.
  intros E. apply Qnot_le_lt. intros H. apply Qle_bool_iff in H. congruence.
Qed.

Lemma axis_box_step (lo hi : dbl) (vs : list Q) (v : Q) :
  axis_box lo hi vs ->
  axis_box (if dlt (Fin v) lo then Fin v else lo) (if dlt hi (Fin v) then Fin v else hi)
           (vs ++ [v]).
Proof.
  intros [[-> [-> ->]] | [m [M [-> [-> [Hm [HM Hall]]]]]]].
  - right. exists v, v. cbn. repeat split; auto. constructor; [|constructor].
    split; apply Qle_refl.
  - right. cbn [dlt]. unfold Qltb.
    assert (Hv : (v <= v <= v)%Q) by (split; apply Qle_refl).
    destruct (Qle_bool m v) eqn:E1; destruct (Qle_bool v M) eqn:E2; cbn [negb];
      [apply Qle_bool_iff in E1; apply Qle_bool_iff in E2 ..
      |apply Qle_bool_iff in E1; apply Qle_bool_false in E2
      |apply Qle_bool_false in E1; apply Qle_bool_iff in E2
      |apply Qle_bool_false in E1; apply Qle_bool_false in E2].
    + exists m, M. repeat split; try (apply in_or_app; auto).
      apply Forall_app. split; [exact Hall|]. constructor; [|constructor]. lra.
    + exists m, v. repeat split; try (apply in_or_app; cbn; auto).
      apply Forall_app. split; [|constructor; [lra|constructor]].
      eapply Forall_impl; [exact Hall|]. cbn. intros u Hu. lra.
    + exists v, M. repeat split; try (apply in_or_app; cbn; auto).
      apply Forall_app. split; [|constructor; [lra|constructor]].
      eapply Forall_impl; [exact Hall|]. cbn. intros u Hu. lra.
    + exfalso. destruct vs as [|u vs]; [destruct Hm|].
      inversion Hall as [|? ? Hu _]; subst. lra.
Qed.

Lemma update_inv (s : Plot) (E : list Point) (p : Point) :
  bbox_inv s E -> bbox_inv (updateXYMinMax s p) (E ++ [p]).
Proof.
  unfold bbox_inv, updateXYMinMax. cbn [minX maxX minY maxY with_bounds].
  rewrite !map_app. cbn [map]. intros [Hx Hy]. split; apply axis_box_step; assumption.
Qed.

Lemma submit_inv (s : Plot) (E : list Point) (u : submission) :
  range s = false -> bbox_inv s E ->
  range (submit s u) = false /\ bbox_inv (submit s u) (E ++ endpoints u).
Proof.
  intros Hr Hi. destruct u as [x y color k | x1 y1 x2 y2 color k]; cbn [submit endpoints].
  - unfold point. cbn [range with_data]. rewrite Hr.
    split; [exact Hr|]. apply update_inv. exact Hi.
  - unfold line. cbn [range with_data]. rewrite Hr.
    split; [exact Hr|]. change [mkPoint x1 y1; mkPoint x2 y2] with ([mkPoint x1 y1] ++ [mkPoint x2 y2]).
    rewrite app_assoc. apply update_inv, update_inv. exact Hi.
Qed.

Lemma submit_all_inv (us : list submission) :
  forall (s : Plot) (E : list Point), range s = false -> bbox_inv s E ->
  range (submit_all s us) = false /\
  bbox_inv (submit_all s us) (E ++ concat (map endpoints us)).
Proof.
  induction us as [|u us IH]; intros s E Hr Hi; cbn [submit_all fold_left map concat].
  - rewrite app_nil_r. auto.
  - destruct (submit_inv s E u Hr Hi) as [Hr' Hi'].
    rewrite app_assoc. apply IH; assumption.
Qed.

(** ** Drawing only touches the buffer *)

Lemma same_frame_refl (s : Plot) : same_frame s s.
Proof. destruct s; reflexivity. Qed.

Lemma same_frame_trans (s t u : Plot) : same_frame s t -> same_frame t u -> same_frame s u.
Proof.
  unfold same_frame. intros H1 H2. rewrite <- H2. cbn [printBuf with_buf].
  rewrite <- H1. reflexivity.
Qed.

Lemma setCell_frame (s : Plot) (x y color : Z) (k : ascii) :
  same_frame s (setCell s x y color k).
Proof.
  unfold same_frame, setCell.
  destruct (_ || _); [apply same_frame_refl|].
  destruct (cell_at s x y); [reflexivity | apply same_frame_refl].
Qed.

Lemma setCells_frame (color : Z) (k : ascii) (cs : list (Z * Z)) :
  forall s, same_frame s (setCells s cs color k).
Proof.
  induction cs as [|c cs IH]; intros s; [apply same_frame_refl|].
  unfold setCells. cbn [fold_left]. eapply same_frame_trans; [apply setCell_frame|].
  apply IH.
Qed.

Lemma printLine_frame (s : Plot) (l : Line) (color : Z) (k : ascii) :
  same_frame s (printLine s l color k).
Proof.
  unfold printLine.
  destruct (map_x s (la l)), (map_y s (la l)), (map_x s (lb l)), (map_y s (lb l));
    try apply same_frame_refl.
  destruct (line_cells _ _ _ _); [apply setCells_frame | apply same_frame_refl].
Qed.

Lemma printPoint_frame (s : Plot) (p : Point) (color : Z) (k : ascii) :
  same_frame s (printPoint s p color k).
Proof.
  unfold printPoint. destruct (map_x s p), (map_y s p);
    solve [apply setCell_frame | apply same_frame_refl].
Qed.

Lemma render_lines_frame (m : list (Cell * list Line)) :
  forall s, same_frame s (render_lines s m).
Proof.
  unfold render_lines.
  induction m as [|[k ls] m IH]; intros s; [apply same_frame_refl|].
  cbn [fold_left]. eapply same_frame_trans; [|apply IH]. cbn [fst snd].
  clear IH. revert s. induction ls as [|l ls IHl]; intros s; [apply same_frame_refl|].
  cbn [fold_left]. eapply same_frame_trans; [apply printLine_frame | apply IHl].
Qed.

Lemma render_points_frame (m : list (Cell * list Point)) :
  forall s, same_frame s (render_points s m).
Proof.
  unfold render_points.
  induction m as [|[k ps] m IH]; intros s; [apply same_frame_refl|].
  cbn [fold_left]. eapply same_frame_trans; [|apply IH]. cbn [fst snd].
  clear IH. revert s. induction ps as [|p ps IHp]; intros s; [apply same_frame_refl|].
  cbn [fold_left]. eapply same_frame_trans; [apply printPoint_frame | apply IHp].
Qed.

Lemma render_frame (s : Plot) : same_frame (render_window s) (render s).
Proof.
  unfold render. eapply same_frame_trans; [apply render_lines_frame | apply render_points_frame].
Qed.

(** C9: without a drawing range, [render] after the points (0,0) and
    (10,10) uses origin (0,0) and extent (10,10); in general, for
    submissions made with no drawing range since the bounds were last
    reset, the window is the bounding box of all their endpoints. *)
Theorem render_implicit_window :
  (topLeft (render (point (point (make_plot 10 10) 0 0 WHITE BLOCK) 10 10 WHITE BLOCK))
     = (Fin 0, Fin 0) /\
   dx (render (point (point (make_plot 10 10) 0 0 WHITE BLOCK) 10 10 WHITE BLOCK)) = Fin 10 /\
   dy (render (point (point (make_plot 10 10) 0 0 WHITE BLOCK) 10 10 WHITE BLOCK)) = Fin 10) /\
  (forall (s : Plot) (us : list submission),
     range s = false -> minX s = PInf -> maxX s = NInf -> minY s = PInf -> maxY s = NInf ->
     us <> [] ->
     exists mx Mx my My,
       topLeft (render (submit_all s us)) = (Fin mx, Fin my) /\
       dx (render (submit_all s us)) = Fin (Mx - mx) /\
       dy (render (submit_all s us)) = Fin (My - my) /\
       In mx (map px (concat (map endpoints us))) /\
       In Mx (map px (concat (map endpoints us))) /\
       In my (map py (concat (map endpoints us))) /\
       In My (map py (concat (map endpoints us))) /\
       Forall (fun p => (mx <= px p <= Mx)%Q /\ (my <= py p <= My)%Q)
         (concat (map endpoints us))).
Proof.
  split; [vm_compute; auto|].
  intros s us Hr H1 H2 H3 H4 Hne.
  assert (Hi0 : bbox_inv s []) by (split; left; auto).
  destruct (submit_all_inv us s [] Hr Hi0) as [Hr' [Hx Hy]].
  cbn [app] in Hx, Hy.
  set (E := concat (map endpoints us)) in *.
  assert (HE : E <> []).
  { destruct us as [|u us]; [contradiction|]. subst E. cbn.
    destruct u; discriminate. }
  destruct Hx as [[Hx _] | [mx [Mx [Hmx [HMx [Imx [IMx Ax]]]]]]];
    [destruct E; [contradiction|discriminate]|].
  destruct Hy as [[Hy _] | [my [My [Hmy [HMy [Imy [IMy Ay]]]]]]];
    [destruct E; [contradiction|discriminate]|].
  pose proof (render_frame (submit_all s us)) as Hf. unfold same_frame in Hf.
  exists mx, Mx, my, My. rewrite <- Hf. cbn [topLeft dx dy with_buf].
  unfold render_window. rewrite Hr'. cbn [topLeft dx dy with_window].
  rewrite Hmx, HMx, Hmy, HMy. cbn [dsub].
  repeat split; auto.
  apply List.Forall_forall. intros p Hp.
  rewrite List.Forall_forall in Ax, Ay.
  split; [apply Ax | apply Ay]; apply in_map; exact Hp.
Qed.

Lemma same_frame_eqs (s t : Plot) : same_frame s t ->
  map_x t = map_x s /\ map_y t = map_y s /\ in_bounds t = in_bounds s /\
  cell_index t = cell_index s /\ sub_odd t = sub_odd s /\ background t = background s /\
  points t = points s /\ lines t = lines s /\ range t = range s /\
  cell_offset t = cell_offset s.
Proof. intros H. rewrite <- H. repeat split. Qed.

Lemma render_window_data (s : Plot) :
  points (render_window s) = points s /\ lines (render_window s) = lines s.
Proof. unfold render_window. destruct (range s); split; reflexivity. Qed.

(** ** Lines before points *)




(** ** Rendering twice *)

(** Bitwise equalities between attribute bytes built from colours bounded
    by a hypothesis [0 <= v < 16] of the context. *)
Ltac byte_bits :=
  unfold byte; apply Z.bits_inj'; intros n Hn;
  repeat (rewrite ?Z.land_spec, ?Z.lor_spec; rewrite ?Z.shiftl_spec by lia);
  destruct (Z_lt_le_dec n 8) as [Hn8|Hn8];
  [ assert (n = 0 \/ n = 1 \/ n = 2 \/ n = 3 \/ n = 4 \/ n = 5 \/ n = 6 \/ n = 7)
      as Hcases by lia;
    repeat destruct Hcases as [->|Hcases]; subst;
    repeat match goal with
           | |- context [Z.testbit ?k ?m] =>
               let m' := eval vm_compute in m in progress change m with m'
           end;
    repeat match goal with
           | H : 0 <= ?v < 16 |- context [Z.testbit ?v ?m] =>
               rewrite (testbit_small v m H) by lia
           end;
    cbn; btauto
  | repeat match goal with
           | |- context [Z.testbit ?k n] => rewrite (testbit_const_high k n) by lia
           end;
    rewrite ?andb_false_r; reflexivity ].

Lemma block_overwrite (o : bool) (c c' : Z) (x : Cell) : 0 <= c' < 16 ->
  block_cell o c (block_cell o c' x) = block_cell o c x.
Proof.
  intros Hc'. destruct x as [k a]. unfold block_cell. cbn [ch co]. f_equal.
  - destruct (Ascii.eqb k EMPTY) eqn:E; [reflexivity | rewrite E; reflexivity].
  - destruct o; byte_bits.
Qed.

Lemma block_commute (c c' : Z) (x : Cell) : 0 <= c < 16 -> 0 <= c' < 16 ->
  block_cell true c (block_cell false c' x) = block_cell false c' (block_cell true c x).
Proof.
  intros Hc Hc'. destruct x as [k a]. unfold block_cell. cbn [ch co]. f_equal. byte_bits.
Qed.

Lemma last_col_snoc (o o' : bool) (c : Z) (ops : list (bool * Z)) :
  last_col o (ops ++ [(o', c)]) = if Bool.eqb o o' then Some c else last_col o ops.
Proof.
  induction ops as [|[o1 c1] ops IH]; cbn [app last_col].
  - destruct (Bool.eqb o o'); reflexivity.
  - rewrite IH. destruct (Bool.eqb o o'); reflexivity.
Qed.

Lemma last_col_ok (o : bool) (ops : list (bool * Z)) (c : Z) :
  ops_ok ops -> last_col o ops = Some c -> 0 <= c < 16.
Proof.
  induction ops as [|[o1 c1] ops IH]; cbn [last_col]; intros Hok Hl; [discriminate|].
  inversion Hok as [|? ? Hc1 Hok']; subst.
  destruct (last_col o ops) eqn:E.
  - injection Hl as <-. apply IH; auto.
  - destruct (Bool.eqb o o1); [injection Hl as <-; exact Hc1 | discriminate].
Qed.

Lemma opt_overwrite (o : bool) (c : Z) (oc : option Z) (x : Cell) :
  (forall c', oc = Some c' -> 0 <= c' < 16) ->
  block_cell o c (opt_block o oc x) = block_cell o c x.
Proof.
  intros H. destruct oc as [c'|]; [|reflexivity].
  apply block_overwrite, H. reflexivity.
Qed.

Lemma run_ops_nf (ops : list (bool * Z)) (x : Cell) :
  ops_ok ops -> run_ops ops x = nf_ops ops x.
Proof.
  induction ops as [|[o c] ops IH] using rev_ind; intros Hok; [reflexivity|].
  apply Forall_app in Hok as [Hok Hoc]. inversion Hoc as [|? ? Hc _]; subst. cbn [snd] in Hc.
  unfold run_ops. rewrite List.fold_left_app. cbn [fold_left fst snd].
  fold (run_ops ops x). rewrite IH by exact Hok.
  unfold nf_ops. rewrite !last_col_snoc.
  pose proof (last_col_ok true ops) as Ht. pose proof (last_col_ok false ops) as Hf.
  destruct o; cbn [Bool.eqb opt_block].
  - apply opt_overwrite. intros c' Hc'. apply (Ht c' Hok Hc').
  - destruct (last_col true ops) as [h|] eqn:Eh; cbn [opt_block].
    + rewrite <- block_commute by (auto; apply (Ht h Hok Eh)).
      f_equal. apply opt_overwrite. intros c' Hc'. apply (Hf c' Hok Hc').
    + apply opt_overwrite. intros c' Hc'. apply (Hf c' Hok Hc').
Qed.

Lemma nf_ops_idem (ops : list (bool * Z)) (x : Cell) :
  ops_ok ops -> nf_ops ops (nf_ops ops x) = nf_ops ops x.
Proof.
  intros Hok. unfold nf_ops.
  pose proof (last_col_ok true ops) as Ht. pose proof (last_col_ok false ops) as Hf.
  destruct (last_col true ops) as [h|] eqn:Eh, (last_col false ops) as [l|] eqn:El;
    cbn [opt_block].
  - specialize (Ht h Hok eq_refl). specialize (Hf l Hok eq_refl).
    rewrite <- (block_commute h l) by assumption.
    rewrite !block_overwrite by assumption. reflexivity.
  - specialize (Ht h Hok eq_refl). rewrite block_overwrite by assumption. reflexivity.
  - specialize (Hf l Hok eq_refl). rewrite block_overwrite by assumption. reflexivity.
  - reflexivity.
Qed.

Lemma run_ops_idem (ops : list (bool * Z)) (x : Cell) :
  ops_ok ops -> run_ops ops (run_ops ops x) = run_ops ops x.
Proof. intros Hok. rewrite !run_ops_nf by exact Hok. apply nf_ops_idem, Hok. Qed.

Lemma setCell_none (s : Plot) (x y color : Z) (k : ascii) :
  cell_at s x y = None -> setCell s x y color k = s.
Proof.
  intros H. unfold setCell. destruct (_ || _); [reflexivity|]. cbv zeta. now rewrite H.
Qed.

Lemma apply_writes_app (t : Plot) (xs ys : list write) :
  apply_writes t (xs ++ ys) = apply_writes (apply_writes t xs) ys.
Proof. unfold apply_writes. apply List.fold_left_app. Qed.

Lemma apply_writes_frame (ws : list write) :
  forall t, same_frame t (apply_writes t ws).
Proof.
  induction ws as [|[[[x y] c] k] ws IH]; intros t; [apply same_frame_refl|].
  eapply same_frame_trans; [apply (setCell_frame t x y c k) | apply IH].
Qed.

(** Cell [j] after a pass of block writes is the cell before it, acted on
    by the writes that land in [j], in order. *)
Lemma apply_writes_lookup (s0 : Plot) (j : nat) (ws : list write) :
  Forall (fun wr => snd wr = BLOCK) ws ->
  forall t, same_frame s0 t ->
  printBuf (apply_writes t ws) !! j = fmap (run_ops (cell_ops s0 j ws)) (printBuf t !! j).
Proof.
  induction ws as [|[[[x y] c] k] ws IH]; intros Hall t Ht.
  - cbn. destruct (printBuf t !! j); reflexivity.
  - inversion Hall as [|? ? Hk Hall']; subst. cbn [snd] in Hk. subst k.
    change (apply_writes t ((x, y, c, BLOCK) :: ws))
      with (apply_writes (setCell t x y c BLOCK) ws).
    rewrite (IH Hall' (setCell t x y c BLOCK))
      by (eapply same_frame_trans; [exact Ht | apply setCell_frame]).
    destruct (same_frame_eqs _ _ Ht) as [_ [_ [Eib [Eci [Eso _]]]]].
    destruct (same_frame_eqs _ _ Ht) as [_ [_ [_ [_ [_ [_ [_ [_ [_ Eco]]]]]]]]].
    cbn [cell_ops]. rewrite <- Eib, <- Eci, <- Eso, <- Eco.
    destruct (in_bounds t x y) eqn:Hb; cbn [andb];
      [|rewrite setCell_out by exact Hb; reflexivity].
    destruct (cell_at t x y) as [cc|] eqn:Hc.
    + pose proof (cell_at_lookup _ _ _ _ Hc) as Hc'.
      assert (Eo : (0 <=? cell_offset t x y) = true).
      { unfold cell_at in Hc. apply Z.leb_le.
        destruct (Z.ltb_spec (cell_offset t x y) 0); [discriminate | lia]. }
      rewrite Eo. cbn [andb].
      destruct (setCell_lookup t x y c BLOCK cc Hb Hc) as [Hi Ho].
      destruct (Nat.eqb_spec (cell_index t x y) j) as [<-|Hne].
      * rewrite Hi, Hc'. reflexivity.
      * rewrite Ho by congruence. reflexivity.
    + rewrite setCell_none by exact Hc.
      unfold cell_at in Hc. destruct (Z.ltb_spec (cell_offset t x y) 0) as [Eo|Eo].
      * rewrite (proj2 (Z.leb_gt 0 _) Eo). reflexivity.
      * rewrite (proj2 (Z.leb_le 0 _) Eo). cbn [andb].
        destruct (Nat.eqb_spec (cell_index t x y) j) as [<-|Hne]; [|reflexivity].
        rewrite Hc. reflexivity.
Qed.

Lemma cell_ops_ok (s : Plot) (j : nat) (ws : list write) :
  Forall (fun wr => 0 <= snd (fst wr) < 16) ws -> ops_ok (cell_ops s j ws).
Proof.
  induction ws as [|[[[x y] c] k] ws IH]; intros Hall; [constructor|].
  inversion Hall as [|? ? Hc Hall']; subst. cbn [cell_ops].
  destruct (_ && _); [constructor; [exact Hc|]|]; apply IH; exact Hall'.
Qed.

Lemma apply_tag (c : Z) (k : ascii) (cs : list (Z * Z)) :
  forall t, apply_writes t (tag c k cs) = setCells t cs c k.
Proof.
  unfold apply_writes, setCells, tag.
  induction cs as [|p cs IH]; intros t; [reflexivity|]. apply IH.
Qed.

Lemma printLine_writes (s0 t : Plot) (l : Line) (c : Z) (k : ascii) :
  same_frame s0 t -> printLine t l c k = apply_writes t (tag c k (line_coords s0 l)).
Proof.
  intros Ht. rewrite apply_tag. destruct (same_frame_eqs _ _ Ht) as [Emx [Emy _]].
  unfold printLine, line_coords. rewrite Emx, Emy.
  destruct (map_x s0 (la l)), (map_y s0 (la l)), (map_x s0 (lb l)), (map_y s0 (lb l));
    try reflexivity.
  destruct (line_cells _ _ _ _); reflexivity.
Qed.

Lemma printPoint_writes (s0 t : Plot) (p : Point) (c : Z) (k : ascii) :
  same_frame s0 t -> printPoint t p c k = apply_writes t (tag c k (point_coords s0 p)).
Proof.
  intros Ht. rewrite apply_tag. destruct (same_frame_eqs _ _ Ht) as [Emx [Emy _]].
  unfold printPoint, point_coords. rewrite Emx, Emy.
  destruct (map_x s0 p), (map_y s0 p); reflexivity.
Qed.

Lemma fold_writes {A : Type} (s0 : Plot) (op : Plot -> A -> Plot) (f : A -> list write) :
  (forall t a, same_frame s0 t -> op t a = apply_writes t (f a)) ->
  forall l t, same_frame s0 t -> fold_left op l t = apply_writes t (flat_map f l).
Proof.
  intros Hop l. induction l as [|a l IH]; intros t Ht; [reflexivity|].
  cbn [fold_left flat_map]. rewrite apply_writes_app, (Hop t a Ht). apply IH.
  eapply same_frame_trans; [exact Ht | apply apply_writes_frame].
Qed.

(** [render] is the pass of [render_writes] over the buffer it starts from. *)
Lemma render_writes_eq (s : Plot) :
  render s = apply_writes (render_window s) (render_writes (render_window s)).
Proof.
  unfold render, render_writes. set (s0 := render_window s).
  rewrite apply_writes_app.
  assert (HL : render_lines s0 (lines s0) =
    apply_writes s0 (flat_map (fun kv => flat_map (fun l =>
      tag (co (fst kv)) (ch (fst kv)) (line_coords s0 l)) (snd kv)) (lines s0))).
  { unfold render_lines. apply (fold_writes s0); [|apply same_frame_refl].
    intros t kv Ht. apply (fold_writes s0); [|exact Ht].
    intros t' l Ht'. apply printLine_writes. exact Ht'. }
  rewrite HL.
  destruct (same_frame_eqs _ _ (apply_writes_frame
    (flat_map (fun kv => flat_map (fun l =>
      tag (co (fst kv)) (ch (fst kv)) (line_coords s0 l)) (snd kv)) (lines s0)) s0))
    as [_ [_ [_ [_ [_ [_ [Ep _]]]]]]].
  rewrite Ep. unfold render_points. apply (fold_writes s0); [|eapply same_frame_trans; [apply same_frame_refl|apply apply_writes_frame]].
  intros t kv Ht. apply (fold_writes s0); [|exact Ht].
  intros t' p Ht'. apply printPoint_writes. exact Ht'.
Qed.

Lemma render_window_idem (s : Plot) : render_window (render_window s) = render_window s.
Proof. unfold render_window. destruct (range s) eqn:E; cbn [range with_window]; rewrite ?E; reflexivity. Qed.

Lemma render_window_buf (s : Plot) (b : list Cell) :
  render_window (with_buf s b) = with_buf (render_window s) b.
Proof. unfold render_window. cbn [range with_buf]. destruct (range s); reflexivity. Qed.

Lemma render_writes_frame (s t : Plot) : same_frame s t -> render_writes t = render_writes s.
Proof. unfold same_frame. intros <-. reflexivity. Qed.

Lemma tag_block (c : Z) (k : ascii) (cs : list (Z * Z)) :
  k = BLOCK -> 0 <= c < 16 ->
  Forall (fun wr => snd wr = BLOCK /\ 0 <= snd (fst wr) < 16) (tag c k cs).
Proof.
  intros Hk Hc. apply List.Forall_forall. intros wr Hin.
  unfold tag in Hin. apply in_map_iff in Hin as [p [<- _]]. cbn. auto.
Qed.

Lemma flat_map_block {A : Type} (f : A -> list write) (l : list A) :
  (forall a, In a l -> Forall (fun wr => snd wr = BLOCK /\ 0 <= snd (fst wr) < 16) (f a)) ->
  Forall (fun wr => snd wr = BLOCK /\ 0 <= snd (fst wr) < 16) (flat_map f l).
Proof.
  intros H. apply List.Forall_forall. intros wr Hin.
  apply in_flat_map in Hin as [a [Ha Hw]].
  specialize (H a Ha). rewrite List.Forall_forall in H. apply H, Hw.
Qed.

Lemma render_writes_block (s : Plot) :
  Forall block_line_style (lines s) -> Forall block_style (points s) ->
  Forall (fun wr => snd wr = BLOCK /\ 0 <= snd (fst wr) < 16) (render_writes s).
Proof.
  intros HL HP. rewrite List.Forall_forall in HL, HP. unfold render_writes.
  apply Forall_app. split; apply flat_map_block; intros kv Hkv;
    apply flat_map_block; intros a _.
  - destruct (HL kv Hkv) as [Hk Hc]. apply tag_block; assumption.
  - destruct (HP kv Hkv) as [Hk Hc]. apply tag_block; assumption.
Qed.

(** C1 (as the code does it): when every style of the data draws with the
    block glyph and a colour in [0,16), a second [render] leaves the plot
    exactly as the first one did, whatever the window and the buffer. *)
Theorem render_idempotent_block (s : Plot) :
  Forall block_line_style (lines s) -> Forall block_style (points s) ->
  render (render s) = render s.
Proof.
  intros HL HP.
  set (s0 := render_window s).
  set (W := render_writes s0).
  assert (Hr : render s = apply_writes s0 W) by apply render_writes_eq.
  assert (Hf : same_frame s0 (render s)) by apply render_frame.
  assert (Hw : render_window (render s) = render s).
  { pose proof Hf as Hf'. unfold same_frame in Hf'.
    rewrite <- Hf' at 1. rewrite render_window_buf. unfold s0. rewrite render_window_idem.
    exact Hf'. }
  destruct (render_window_data s) as [Hp0 Hl0].
  assert (HW : Forall (fun wr => snd wr = BLOCK /\ 0 <= snd (fst wr) < 16) W).
  { apply render_writes_block; unfold s0; [rewrite Hl0 | rewrite Hp0]; assumption. }
  assert (HB : Forall (fun wr => snd wr = BLOCK) W)
    by (eapply Forall_impl; [exact HW | intros wr [H _]; exact H]).
  assert (HC : Forall (fun wr => 0 <= snd (fst wr) < 16) W)
    by (eapply Forall_impl; [exact HW | intros wr [_ H]; exact H]).
  rewrite (render_writes_eq (render s)), Hw.
  rewrite (render_writes_frame s0 (render s) Hf). fold W.
  pose proof (apply_writes_frame W (render s)) as Ha. unfold same_frame in Ha.
  rewrite <- Ha.
  transitivity (with_buf (render s) (printBuf (render s))); [|apply same_frame_refl].
  f_equal.
  apply list_eq. intros j.
  rewrite (apply_writes_lookup s0 j W HB (render s) Hf).
  rewrite Hr, (apply_writes_lookup s0 j W HB s0 (same_frame_refl s0)).
  destruct (printBuf s0 !! j) as [c|]; [|reflexivity].
  cbn. f_equal. apply run_ops_idem, cell_ops_ok, HC.
Qed.

(** C1 fails with a literal glyph: re-rendering blends with the state the
    first pass left, so the cell of the point 'x' changes from 0x12 to
    0x11 on the second [render]. *)
Lemma render_twice_differs_cex :
  printBuf (render c1_state) = [mkCell "x"%char 18] /\
  printBuf (render (render c1_state)) = [mkCell "x"%char 17] /\
  render (render c1_state) <> render c1_state.
Proof.
  split; [vm_compute; reflexivity|]. split; [vm_compute; reflexivity|].
  intros H. apply (f_equal printBuf) in H. vm_compute in H. discriminate.
Qed.

(** ** The line walk *)

Lemma walk_exact_fuel_mono (x2 y2 ddx ddy sx sy : Z) :
  forall f f' x1 y1 e1 cs,
  walk_exact f x1 y1 x2 y2 ddx ddy sx sy e1 = Some cs -> (f <= f')%nat ->
  walk_exact f' x1 y1 x2 y2 ddx ddy sx sy e1 = Some cs.
Proof.
  induction f as [|f IH]; intros f' x1 y1 e1 cs Hw Hle; [discriminate|].
  destruct f' as [|f']; [lia|].
  cbn [walk_exact] in *.
  destruct ((x1 =? x2) && (y1 =? y2)); [assumption|].
  match goal with
  | Hw : match walk_exact f ?a ?b _ _ _ _ _ _ ?c with _ => _ end = _ |- _ =>
      destruct (walk_exact f a b x2 y2 ddx ddy sx sy c) eqn:E; [|discriminate]
  end.
  rewrite (IH f' _ _ _ _ E) by lia. exact Hw.
Qed.

Lemma walk_exact_length (x2 y2 ddx ddy sx sy : Z) :
  forall f x1 y1 e1 cs,
  walk_exact f x1 y1 x2 y2 ddx ddy sx sy e1 = Some cs -> (length cs <= f)%nat.
Proof.
  induction f as [|f IH]; intros x1 y1 e1 cs Hw; [discriminate|].
  cbn [walk_exact] in Hw.
  destruct ((x1 =? x2) && (y1 =? y2)).
  - injection Hw as <-. simpl. lia.
  - match goal with
    | Hw : match walk_exact f ?a ?b _ _ _ _ _ _ ?c with _ => _ end = _ |- _ =>
        destruct (walk_exact f a b x2 y2 ddx ddy sx sy c) eqn:E; [|discriminate]
    end.
    injection Hw as <-. apply IH in E. simpl. lia.
Qed.

(** With [a = DX - ra] steps taken in x and [b = DY - rb] in y, the error
    term is [DX*(1+b) - DY*(1+a)].  No step overshoots, and some step is
    taken until both remainders are zero. *)
Section WalkArith.
Variables DX DY ra rb e : Z.
Hypothesis Hra : 0 <= ra <= DX.
Hypothesis Hrb : 0 <= rb <= DY.
Hypothesis He : e = DX * (1 + (DY - rb)) - DY * (1 + (DX - ra)).

Lemma walk_x_no_overshoot : e > - DY -> ra = 0 -> rb = 0.
Proof. intros Hx Hr. subst. nia. Qed.

Lemma walk_y_no_overshoot : e * 2 < DX -> rb = 0 -> ra = 0.
Proof. intros Hy Hr. subst. nia. Qed.

Lemma walk_progress : ~ e > - DY -> ~ e * 2 < DX -> ra = 0 /\ rb = 0.
Proof. intros Hx Hy. subst. nia. Qed.
End WalkArith.

Lemma walk_cons (p c z : Z * Z) (cs : list (Z * Z)) :
  hd_error cs = Some c -> last cs = Some z -> chain8 cs ->
  Z.abs (fst p - fst c) <= 1 -> Z.abs (snd p - snd c) <= 1 ->
  hd_error (p :: cs) = Some p /\ last (p :: cs) = Some z /\ chain8 (p :: cs).
Proof.
  destruct cs as [|c' cs]; intros Hh Hl Hch H1 H2; [discriminate|].
  injection Hh as ->. split; [reflexivity|]. split; [exact Hl|].
  simpl. auto.
Qed.

Lemma walk_exact_reaches (DX DY sx sy x2 y2 : Z) :
  0 <= DX -> 0 <= DY -> (sx = 1 \/ sx = -1) -> (sy = 1 \/ sy = -1) ->
  forall fuel x y e ra rb,
  0 <= ra <= DX -> 0 <= rb <= DY -> x2 = x + sx * ra -> y2 = y + sy * rb ->
  e = DX * (1 + (DY - rb)) - DY * (1 + (DX - ra)) ->
  (Z.to_nat (ra + rb) < fuel)%nat ->
  exists cs, walk_exact fuel x y x2 y2 DX DY sx sy e = Some cs /\
    hd_error cs = Some (x, y) /\ last cs = Some (x2, y2) /\ chain8 cs.
Proof.
  intros HDX HDY Hsx Hsy.
  induction fuel as [|fuel IH]; intros x y e ra rb Hra Hrb Hx Hy He Hf; [lia|].
  cbn [walk_exact].
  destruct ((x =? x2) && (y =? y2)) eqn:Hend.
  - apply andb_true_iff in Hend as [H1 H2].
    apply Z.eqb_eq in H1, H2. subst x2 y2.
    exists [(x, y)]. simpl. rewrite <- H1, <- H2. auto.
  - assert (Hne : ra <> 0 \/ rb <> 0).
    { destruct (Z.eq_dec ra 0), (Z.eq_dec rb 0); [|lia..].
      subst ra rb. rewrite !Z.mul_0_r, !Z.add_0_r in *. subst.
      rewrite !Z.eqb_refl in Hend. discriminate. }
    destruct (e >? - DY) eqn:Ex; destruct (e * 2 <? DX) eqn:Ey;
      [apply Z.gtb_lt in Ex; apply Z.ltb_lt in Ey ..
      |apply Z.gtb_lt in Ex; apply Z.ltb_ge in Ey
      |rewrite Z.gtb_ltb in Ex; apply Z.ltb_ge in Ex; apply Z.ltb_lt in Ey
      |rewrite Z.gtb_ltb in Ex; apply Z.ltb_ge in Ex; apply Z.ltb_ge in Ey].
    + (* a step in both components *)
      assert (ra <> 0) by (intro; pose proof (walk_x_no_overshoot DX DY ra rb e); lia).
      assert (rb <> 0) by (intro; pose proof (walk_y_no_overshoot DX DY ra rb e); lia).
      destruct (IH (x + sx) (y + sy) (e - DY + DX) (ra - 1) (rb - 1))
        as [cs [Hc [Hh [Hl Hch]]]]; try lia.
      exists ((x, y) :: cs). rewrite Hc. split; [reflexivity|].
      eapply walk_cons; [exact Hh | exact Hl | exact Hch | simpl; lia | simpl; lia].
    + (* a step in x only *)
      assert (ra <> 0) by (intro; pose proof (walk_x_no_overshoot DX DY ra rb e); lia).
      destruct (IH (x + sx) y (e - DY) (ra - 1) rb)
        as [cs [Hc [Hh [Hl Hch]]]]; try lia.
      exists ((x, y) :: cs). rewrite Hc. split; [reflexivity|].
      eapply walk_cons; [exact Hh | exact Hl | exact Hch | simpl; lia | simpl; lia].
    + (* a step in y only *)
      assert (rb <> 0) by (intro; pose proof (walk_y_no_overshoot DX DY ra rb e); lia).
      destruct (IH x (y + sy) (e + DX) ra (rb - 1))
        as [cs [Hc [Hh [Hl Hch]]]]; try lia.
      exists ((x, y) :: cs). rewrite Hc. split; [reflexivity|].
      eapply walk_cons; [exact Hh | exact Hl | exact Hch | simpl; lia | simpl; lia].
    + (* no step: only possible at the end point *)
      pose proof (walk_progress DX DY ra rb e). lia.
Qed.

Lemma cells_exact_reaches (x1 y1 x2 y2 : Z) :
  exists cs, cells_exact x1 y1 x2 y2 = Some cs /\
    hd_error cs = Some (x1, y1) /\ last cs = Some (x2, y2) /\ chain8 cs.
Proof.
  unfold cells_exact.
  apply walk_exact_reaches with (ra := Z.abs (x2 - x1)) (rb := Z.abs (y2 - y1));
    try lia; try solve [destruct (x1 <? x2); auto]; try solve [destruct (y1 <? y2); auto].
  - destruct (x1 <? x2) eqn:E; [apply Z.ltb_lt in E | apply Z.ltb_ge in E]; lia.
  - destruct (y1 <? y2) eqn:E; [apply Z.ltb_lt in E | apply Z.ltb_ge in E]; lia.
Qed.

(** ** The loop in [int] arithmetic

    With [|x2-x1|] and [|y2-y1|] below [2^29] and the end points [int]s,
    every [int] expression of the loop keeps its exact value: with
    [D = e - dx + dy], [-dx <= 2D <= dx] when [dy <= dx] and [-dy < D <= 0]
    when [dx < dy], so [|2*e1| < 2^31]. *)
Lemma line_walk_exact (DX DY sx sy x2 y2 : Z) :
  0 <= DX < 2 ^ 29 -> 0 <= DY < 2 ^ 29 -> (sx = 1 \/ sx = -1) -> (sy = 1 \/ sy = -1) ->
  - 2 ^ 31 <= x2 < 2 ^ 31 -> - 2 ^ 31 <= y2 < 2 ^ 31 ->
  forall fuel x y e ra rb,
  0 <= ra <= DX -> 0 <= rb <= DY -> x2 = x + sx * ra -> y2 = y + sy * rb ->
  - 2 ^ 31 <= x < 2 ^ 31 -> - 2 ^ 31 <= y < 2 ^ 31 ->
  e = DX * (1 + (DY - rb)) - DY * (1 + (DX - ra)) ->
  (DY <= DX -> - DX <= 2 * (e - DX + DY) <= DX) ->
  (DX < DY -> - DY < e - DX + DY <= 0) ->
  line_walk fuel x y x2 y2 DX DY sx sy e = walk_exact fuel x y x2 y2 DX DY sx sy e.
Proof.
  intros HDX HDY Hsx Hsy Hx2 Hy2.
  induction fuel as [|fuel IH];
    intros x y e ra rb Hra Hrb Hx Hy Hxr Hyr He HA HB; [reflexivity|].
  cbn [line_walk walk_exact].
  destruct ((x =? x2) && (y =? y2)) eqn:Hend; [reflexivity|].
  assert (Hne : ra <> 0 \/ rb <> 0).
  { destruct (Z.eq_dec ra 0), (Z.eq_dec rb 0); [|lia..].
    subst ra rb. rewrite !Z.mul_0_r, !Z.add_0_r in *. subst.
    rewrite !Z.eqb_refl in Hend. discriminate. }
  pose proof (walk_x_no_overshoot DX DY ra rb e) as W1.
  pose proof (walk_y_no_overshoot DX DY ra rb e) as W2.
  pose proof (walk_progress DX DY ra rb e) as W3.
  unfold walk_step. cbv zeta.
  rewrite (int32_id (- DY)) by lia.
  rewrite (int32_id (e * 2)) by lia.
  destruct (e >? - DY) eqn:Ex; destruct (e * 2 <? DX) eqn:Ey;
    [apply Z.gtb_lt in Ex; apply Z.ltb_lt in Ey ..
    |apply Z.gtb_lt in Ex; apply Z.ltb_ge in Ey
    |rewrite Z.gtb_ltb in Ex; apply Z.ltb_ge in Ex; apply Z.ltb_lt in Ey
    |rewrite Z.gtb_ltb in Ex; apply Z.ltb_ge in Ex; apply Z.ltb_ge in Ey];
    cbv beta iota.
  - rewrite (int32_id (e - DY)) by lia. rewrite (int32_id (e - DY + DX)) by lia.
    rewrite (int32_id (x + sx)) by (destruct Hsx as [-> | ->]; lia).
    rewrite (int32_id (y + sy)) by (destruct Hsy as [-> | ->]; lia).
    rewrite (IH (x + sx) (y + sy) (e - DY + DX) (ra - 1) (rb - 1));
      [reflexivity | destruct Hsx as [-> | ->]; destruct Hsy as [-> | ->]; lia ..].
  - rewrite (int32_id (e - DY)) by lia.
    rewrite (int32_id (x + sx)) by (destruct Hsx as [-> | ->]; lia).
    rewrite (IH (x + sx) y (e - DY) (ra - 1) rb);
      [reflexivity | destruct Hsx as [-> | ->]; destruct Hsy as [-> | ->]; lia ..].
  - rewrite (int32_id (e + DX)) by lia.
    rewrite (int32_id (y + sy)) by (destruct Hsy as [-> | ->]; lia).
    rewrite (IH x (y + sy) (e + DX) ra (rb - 1));
      [reflexivity | destruct Hsx as [-> | ->]; destruct Hsy as [-> | ->]; lia ..].
  - exfalso. lia.
Qed.

Lemma line_cells_exact (x1 y1 x2 y2 : Z) :
  - 2 ^ 31 <= x1 < 2 ^ 31 -> - 2 ^ 31 <= y1 < 2 ^ 31 ->
  - 2 ^ 31 <= x2 < 2 ^ 31 -> - 2 ^ 31 <= y2 < 2 ^ 31 ->
  Z.abs (x2 - x1) < 2 ^ 29 -> Z.abs (y2 - y1) < 2 ^ 29 ->
  line_cells x1 y1 x2 y2 = cells_exact x1 y1 x2 y2.
Proof.
  intros Hx1 Hy1 Hx2 Hy2 Hdx Hdy. unfold line_cells, cells_exact. cbv zeta.
  rewrite (int32_id (x2 - x1)), (int32_id (y2 - y1)) by lia.
  rewrite (int32_id (Z.abs (x2 - x1))), (int32_id (Z.abs (y2 - y1))) by lia.
  rewrite (int32_id (Z.abs (x2 - x1) - Z.abs (y2 - y1))) by lia.
  apply line_walk_exact with (ra := Z.abs (x2 - x1)) (rb := Z.abs (y2 - y1));
    try lia; try solve [destruct (x1 <? x2); auto]; try solve [destruct (y1 <? y2); auto].
  - destruct (x1 <? x2) eqn:E; [apply Z.ltb_lt in E | apply Z.ltb_ge in E]; lia.
  - destruct (y1 <? y2) eqn:E; [apply Z.ltb_lt in E | apply Z.ltb_ge in E]; lia.
Qed.

Lemma to_int_div_range (num d : Q) (z : Z) :
  to_int_div num d = Some z -> - 2 ^ 31 <= z < 2 ^ 31.
Proof.
  unfold to_int_div. destruct (Qeq_bool d 0); [discriminate|]. cbv zeta.
  destruct (Z.ltb_spec (Qtrunc (num / d)) (- 2 ^ 31)); [discriminate|].
  destruct (Z.leb_spec (2 ^ 31) (Qtrunc (num / d))); [discriminate|].
  intros [= <-]. lia.
Qed.

Lemma map_x_range (s : Plot) (p : Point) (z : Z) :
  map_x s p = Some z -> - 2 ^ 31 <= z < 2 ^ 31.
Proof.
  unfold map_x. destruct (fst (topLeft s)), (dx s); try discriminate.
  apply to_int_div_range.
Qed.

Lemma map_y_range (s : Plot) (p : Point) (z : Z) :
  map_y s p = Some z -> - 2 ^ 31 <= z < 2 ^ 31.
Proof.
  unfold map_y. destruct (snd (topLeft s)), (dy s); try discriminate.
  apply to_int_div_range.
Qed.

Lemma line_cells_reaches (x1 y1 x2 y2 : Z) :
  - 2 ^ 31 <= x1 < 2 ^ 31 -> - 2 ^ 31 <= y1 < 2 ^ 31 ->
  - 2 ^ 31 <= x2 < 2 ^ 31 -> - 2 ^ 31 <= y2 < 2 ^ 31 ->
  Z.abs (x2 - x1) < 2 ^ 29 -> Z.abs (y2 - y1) < 2 ^ 29 ->
  exists cs, line_cells x1 y1 x2 y2 = Some cs /\
    hd_error cs = Some (x1, y1) /\ last cs = Some (x2, y2) /\ chain8 cs.
Proof.
  intros. rewrite line_cells_exact by assumption. apply cells_exact_reaches.
Qed.

(** One iteration of a loop that does not stop: if the loop never stops
    from the next state, it never stops from this one. *)
Lemma line_walk_none_step (fuel : nat) (x y x2 y2 ddx ddy sx sy e : Z) :
  (x =? x2) && (y =? y2) = false ->
  (forall f, line_walk f (fst (fst (walk_step ddx ddy sx sy x y e)))
               (snd (fst (walk_step ddx ddy sx sy x y e))) x2 y2 ddx ddy sx sy
               (snd (walk_step ddx ddy sx sy x y e)) = None) ->
  line_walk fuel x y x2 y2 ddx ddy sx sy e = None.
Proof.
  intros Hend Hnext. destruct fuel as [|fuel]; [reflexivity|].
  cbn [line_walk]. rewrite Hend.
  specialize (Hnext fuel).
  destruct (walk_step ddx ddy sx sy x y e) as [[x' y'] e'].
  cbn [fst snd] in Hnext.
  cbv beta iota. rewrite Hnext. reflexivity.
Qed.

(** A state that the loop body maps to itself, other than the end point,
    repeats for ever. *)
Lemma line_walk_stuck (x y x2 y2 ddx ddy sx sy e : Z) :
  (x =? x2) && (y =? y2) = false -> walk_step ddx ddy sx sy x y e = (x, y, e) ->
  forall fuel, line_walk fuel x y x2 y2 ddx ddy sx sy e = None.
Proof.
  intros Hend Hfix. induction fuel as [|fuel IH]; [reflexivity|].
  cbn [line_walk]. rewrite Hend, Hfix. cbv beta iota. rewrite IH. reflexivity.
Qed.

(** The loop of [printLine] from (0,0) to (1100000000,0): [e2 = e1*2]
    wraps around on the first iteration; after 21 iterations the state
    (11,-21,-1569803776) repeats for ever. *)
Lemma overflow_walk_stuck (fuel : nat) :
  line_walk fuel 0 0 1100000000 0 1100000000 0 1 (-1) 1100000000 = None.
Proof.
  revert fuel.
  do 21 (intros ?; apply line_walk_none_step; [reflexivity|]; cbv -[line_walk]).
  apply line_walk_stuck; reflexivity.
Qed.

(** C3 (corrected): the cells [printLine] writes, for a segment whose
    endpoints map to [(x1,y1)] and [(x2,y2)] with [|x2-x1|] and [|y2-y1|]
    below [2^29], are the successive coordinates of a walk that starts at
    [(x1,y1)], ends at [(x2,y2)] and moves by at most one in each component
    per step. *)
Theorem printLine_path_8connected (s : Plot) (l : Line) (color : Z) (character : ascii)
  (x1 y1 x2 y2 : Z) :
  map_x s (la l) = Some x1 -> map_y s (la l) = Some y1 ->
  map_x s (lb l) = Some x2 -> map_y s (lb l) = Some y2 ->
  Z.abs (x2 - x1) < 2 ^ 29 -> Z.abs (y2 - y1) < 2 ^ 29 ->
  exists cs, printLine s l color character = setCells s cs color character /\
    hd_error cs = Some (x1, y1) /\ last cs = Some (x2, y2) /\ chain8 cs.
Proof.
  intros Hx1 Hy1 Hx2 Hy2 Hdx Hdy.
  destruct (line_cells_reaches x1 y1 x2 y2) as [cs [Hc Hrest]];
    [eapply map_x_range; eassumption | eapply map_y_range; eassumption
    |eapply map_x_range; eassumption | eapply map_y_range; eassumption
    |exact Hdx | exact Hdy|].
  exists cs. split; [|exact Hrest].
  unfold printLine. rewrite Hx1, Hy1, Hx2, Hy2, Hc. reflexivity.
Qed.

(** C3 fails when the [int] error term overflows: on a 10x10 plot showing
    [0,10]x[0,10], the segment from (0,0) to (1100000000,0) maps to the
    columns 0 and 1100000000; [e2 = e1*2] wraps around on the first
    iteration, which steps to (1,-1), off the segment's row, and from
    (11,-21) on the loop stays in place: the walk never reaches the end
    point. *)
Lemma printLine_overflow_cex :
  map_x (setDrawRange (make_plot 10 10) 0 0 10 10) (mkPoint 0 0) = Some 0 /\
  map_y (setDrawRange (make_plot 10 10) 0 0 10 10) (mkPoint 0 0) = Some 0 /\
  map_x (setDrawRange (make_plot 10 10) 0 0 10 10) (mkPoint 1100000000 0) = Some 1100000000 /\
  map_y (setDrawRange (make_plot 10 10) 0 0 10 10) (mkPoint 1100000000 0) = Some 0 /\
  walk_step 1100000000 0 1 (-1) 0 0 1100000000 = (1, -1, -2094967296) /\
  walk_step 1100000000 0 1 (-1) 11 (-21) (-1569803776) = (11, -21, -1569803776) /\
  line_cells 0 0 1100000000 0 = None /\
  ~ (exists fuel cs,
       line_walk fuel 0 0 1100000000 0 1100000000 0 1 (-1) 1100000000 = Some cs).
Proof.
  split; [vm_compute; reflexivity|]. split; [vm_compute; reflexivity|].
  split; [vm_compute; reflexivity|]. split; [vm_compute; reflexivity|].
  split; [vm_compute; reflexivity|]. split; [vm_compute; reflexivity|].
  split.
  - unfold line_cells. cbv zeta. apply overflow_walk_stuck.
  - intros [fuel [cs Hc]]. rewrite overflow_walk_stuck in Hc. discriminate.
Qed.

(** C4 (corrected): for [int] endpoints with [|x2-x1|] and [|y2-y1|] below
    [2^29] the [while(true)] loop of [printLine] leaves through its
    [break] at [(x2,y2)] within [|x2-x1|+|y2-y1|+1] iterations; giving it
    more iterations changes nothing. *)
Theorem printLine_loop_terminates (x1 y1 x2 y2 : Z) :
  - 2 ^ 31 <= x1 < 2 ^ 31 -> - 2 ^ 31 <= y1 < 2 ^ 31 ->
  - 2 ^ 31 <= x2 < 2 ^ 31 -> - 2 ^ 31 <= y2 < 2 ^ 31 ->
  Z.abs (x2 - x1) < 2 ^ 29 -> Z.abs (y2 - y1) < 2 ^ 29 ->
  exists cs, line_cells x1 y1 x2 y2 = Some cs /\
    (forall fuel, (S (Z.to_nat (Z.abs (x2 - x1) + Z.abs (y2 - y1))) <= fuel)%nat ->
       line_walk fuel x1 y1 x2 y2 (Z.abs (x2 - x1)) (Z.abs (y2 - y1))
         (if x1 <? x2 then 1 else -1) (if y1 <? y2 then 1 else -1)
         (Z.abs (x2 - x1) - Z.abs (y2 - y1)) = Some cs) /\
    last cs = Some (x2, y2) /\
    (length cs <= S (Z.to_nat (Z.abs (x2 - x1) + Z.abs (y2 - y1))))%nat.
Proof.
  intros Hx1 Hy1 Hx2 Hy2 Hdx Hdy.
  pose proof (line_cells_exact x1 y1 x2 y2 Hx1 Hy1 Hx2 Hy2 Hdx Hdy) as Ex.
  destruct (cells_exact_reaches x1 y1 x2 y2) as [cs [Hc [_ [Hl _]]]].
  exists cs. split; [rewrite Ex; exact Hc|]. split; [|split; [exact Hl|]].
  - intros fuel Hf.
    rewrite line_walk_exact with (ra := Z.abs (x2 - x1)) (rb := Z.abs (y2 - y1));
      try lia; try solve [destruct (x1 <? x2); auto]; try solve [destruct (y1 <? y2); auto].
    + eapply walk_exact_fuel_mono; [exact Hc | exact Hf].
    + destruct (x1 <? x2) eqn:E; [apply Z.ltb_lt in E | apply Z.ltb_ge in E]; lia.
    + destruct (y1 <? y2) eqn:E; [apply Z.ltb_lt in E | apply Z.ltb_ge in E]; lia.
  - unfold cells_exact in Hc. eapply walk_exact_length. exact Hc.
Qed.

(** C4 fails when the [int] error term overflows: for the [int] end points
    (0,0) and (1100000000,0) the loop state (11,-21,-1569803776), which is
    not the end point, is mapped to itself by the loop body, and the loop
    reaches it; no number of iterations reaches the [break]. *)
Lemma line_loop_overflow_cex :
  ((11 =? 1100000000) && (-21 =? 0)) = false /\
  walk_step 1100000000 0 1 (-1) 11 (-21) (-1569803776) = (11, -21, -1569803776) /\
  ~ (exists fuel cs,
       line_walk fuel 0 0 1100000000 0 (Z.abs (1100000000 - 0)) (Z.abs (0 - 0))
         (if 0 <? 1100000000 then 1 else -1) (if 0 <? 0 then 1 else -1)
         (Z.abs (1100000000 - 0) - Z.abs (0 - 0)) = Some cs).
Proof.
  split; [reflexivity|]. split; [vm_compute; reflexivity|].
  intros [fuel [cs Hc]]. cbv -[line_walk] in Hc.
  rewrite overflow_walk_stuck in Hc. discriminate.
Qed.

(** ** Instances of the theorems at concrete plots *)

Lemma render_idempotent_block_witness :
  Forall block_line_style
    (lines (point (line (make_plot 1 1) 0 0 10 10 RED BLOCK) 0 0 GREEN BLOCK)) /\
  Forall block_style
    (points (point (line (make_plot 1 1) 0 0 10 10 RED BLOCK) 0 0 GREEN BLOCK)) /\
  render (render (point (line (make_plot 1 1) 0 0 10 10 RED BLOCK) 0 0 GREEN BLOCK)) =
    render (point (line (make_plot 1 1) 0 0 10 10 RED BLOCK) 0 0 GREEN BLOCK).
Proof.
  assert (HL : Forall block_line_style
    (lines (point (line (make_plot 1 1) 0 0 10 10 RED BLOCK) 0 0 GREEN BLOCK)))
    by (vm_compute; repeat constructor; discriminate).
  assert (HP : Forall block_style
    (points (point (line (make_plot 1 1) 0 0 10 10 RED BLOCK) 0 0 GREEN BLOCK)))
    by (vm_compute; repeat constructor; discriminate).
  split; [exact HL|]. split; [exact HP|].
  exact (render_idempotent_block _ HL HP).
Defined.

Lemma map_coord_truncates_witness :
  topLeft (setDrawRange (make_plot 1 1) 0 0 2 2) = (Fin 0, Fin 0) /\
  dx (setDrawRange (make_plot 1 1) 0 0 2 2) = Fin 2 /\
  dy (setDrawRange (make_plot 1 1) 0 0 2 2) = Fin 2 /\
  ~ (2 == 0)%Q /\
  - 2 ^ 31 <= Qtrunc ((-1 - 0) * inject_Z 1 / 2) < 2 ^ 31 /\
  - 2 ^ 31 <= Qtrunc ((0 - 0) * inject_Z 1 * inject_Z 2 / 2) < 2 ^ 31 /\
  map_x (setDrawRange (make_plot 1 1) 0 0 2 2) (mkPoint (-1) 0) =
    Some (if Qle_bool 0 ((-1 - 0) * inject_Z 1 / 2)
          then Qfloor ((-1 - 0) * inject_Z 1 / 2)
          else Qceiling ((-1 - 0) * inject_Z 1 / 2)).
Proof.
  assert (H2 : ~ (2 == 0)%Q) by (intro H; vm_compute in H; discriminate H).
  assert (R1 : - 2 ^ 31 <= Qtrunc ((-1 - 0) * inject_Z 1 / 2) < 2 ^ 31)
    by (split; vm_compute; congruence).
  assert (R2 : - 2 ^ 31 <= Qtrunc ((0 - 0) * inject_Z 1 * inject_Z 2 / 2) < 2 ^ 31)
    by (split; vm_compute; congruence).
  split; [reflexivity|]. split; [reflexivity|]. split; [reflexivity|].
  split; [exact H2|]. split; [exact R1|]. split; [exact R2|].
  exact (proj1 (map_coord_truncates (setDrawRange (make_plot 1 1) 0 0 2 2)
                  (mkPoint (-1) 0) 0 0 2 2 eq_refl eq_refl eq_refl H2 H2 R1 R2)).
Defined.

Lemma printLine_path_8connected_witness :
  map_x (setDrawRange (make_plot 4 2) 0 0 4 4) (mkPoint 0 0) = Some 0 /\
  map_y (setDrawRange (make_plot 4 2) 0 0 4 4) (mkPoint 0 0) = Some 0 /\
  map_x (setDrawRange (make_plot 4 2) 0 0 4 4) (mkPoint 3 3) = Some 3 /\
  map_y (setDrawRange (make_plot 4 2) 0 0 4 4) (mkPoint 3 3) = Some 3 /\
  exists cs,
    printLine (setDrawRange (make_plot 4 2) 0 0 4 4) (mkLine (mkPoint 0 0) (mkPoint 3 3))
      RED BLOCK = setCells (setDrawRange (make_plot 4 2) 0 0 4 4) cs RED BLOCK /\
    hd_error cs = Some (0, 0) /\ last cs = Some (3, 3) /\ chain8 cs.
Proof.
  split; [vm_compute; reflexivity|]. split; [vm_compute; reflexivity|].
  split; [vm_compute; reflexivity|]. split; [vm_compute; reflexivity|].
  apply (printLine_path_8connected (setDrawRange (make_plot 4 2) 0 0 4 4)
           (mkLine (mkPoint 0 0) (mkPoint 3 3)) RED BLOCK 0 0 3 3);
    try (vm_compute; reflexivity); lia.
Defined.

Lemma printLine_loop_terminates_witness :
  exists cs, line_cells 0 0 3 (-5) = Some cs /\
    (forall fuel, (S (Z.to_nat (Z.abs (3 - 0) + Z.abs (-5 - 0))) <= fuel)%nat ->
       line_walk fuel 0 0 3 (-5) (Z.abs (3 - 0)) (Z.abs (-5 - 0))
         (if 0 <? 3 then 1 else -1) (if 0 <? -5 then 1 else -1)
         (Z.abs (3 - 0) - Z.abs (-5 - 0)) = Some cs) /\
    last cs = Some (3, -5) /\
    (length cs <= S (Z.to_nat (Z.abs (3 - 0) + Z.abs (-5 - 0))))%nat.
Proof. apply printLine_loop_terminates; lia. Defined.




Lemma setCell_clips_witness :
  - 2 ^ 30 <= h (make_plot 1 1) /\
  (-1 < 0 \/ w (make_plot 1 1) <= -1 \/ 0 < 0 \/ h (make_plot 1 1) * 2 <= 0) /\
  setCell (make_plot 1 1) (-1) 0 RED BLOCK = make_plot 1 1 /\
  (map_x (setDrawRange (make_plot 1 1) 0 0 1 1) (mkPoint 1 0) = Some (-1) \/
   map_x (setDrawRange (make_plot 1 1) 0 0 1 1) (mkPoint 1 0) =
     Some (w (setDrawRange (make_plot 1 1) 0 0 1 1))) /\
  printPoint (setDrawRange (make_plot 1 1) 0 0 1 1) (mkPoint 1 0) RED BLOCK =
    setDrawRange (make_plot 1 1) 0 0 1 1.
Proof.
  assert (H0 : - 2 ^ 30 <= h (make_plot 1 1)) by (vm_compute; discriminate).
  assert (H1 : -1 < 0 \/ w (make_plot 1 1) <= -1 \/ 0 < 0 \/ h (make_plot 1 1) * 2 <= 0)
    by (left; lia).
  assert (H2 : map_x (setDrawRange (make_plot 1 1) 0 0 1 1) (mkPoint 1 0) = Some (-1) \/
               map_x (setDrawRange (make_plot 1 1) 0 0 1 1) (mkPoint 1 0) =
                 Some (w (setDrawRange (make_plot 1 1) 0 0 1 1)))
    by (right; vm_compute; reflexivity).
  split; [exact H0|]. split; [exact H1|].
  split; [exact (proj1 setCell_clips _ _ _ _ _ H0 H1)|].
  split; [exact H2|]. exact (proj2 setCell_clips _ _ _ _ H2).
Defined.

Lemma render_implicit_window_witness :
  range (make_plot 10 10) = false /\ minX (make_plot 10 10) = PInf /\
  maxX (make_plot 10 10) = NInf /\ minY (make_plot 10 10) = PInf /\
  maxY (make_plot 10 10) = NInf /\
  [SubPoint 0 0 WHITE BLOCK; SubPoint 10 10 WHITE BLOCK] <> [] /\
  exists mx Mx my My,
    topLeft (render (submit_all (make_plot 10 10)
               [SubPoint 0 0 WHITE BLOCK; SubPoint 10 10 WHITE BLOCK])) = (Fin mx, Fin my) /\
    dx (render (submit_all (make_plot 10 10)
          [SubPoint 0 0 WHITE BLOCK; SubPoint 10 10 WHITE BLOCK])) = Fin (Mx - mx) /\
    dy (render (submit_all (make_plot 10 10)
          [SubPoint 0 0 WHITE BLOCK; SubPoint 10 10 WHITE BLOCK])) = Fin (My - my).
Proof.
  assert (Hne : [SubPoint 0 0 WHITE BLOCK; SubPoint 10 10 WHITE BLOCK] <> [])
    by discriminate.
  do 5 (split; [reflexivity|]). split; [exact Hne|].
  destruct (proj2 render_implicit_window (make_plot 10 10)
              [SubPoint 0 0 WHITE BLOCK; SubPoint 10 10 WHITE BLOCK]
              eq_refl eq_refl eq_refl eq_refl eq_refl Hne)
    as [mx [Mx [my [My [H1 [H2 [H3 _]]]]]]].
  exists mx, Mx, my, My. auto.
Defined.

(** ** Style keys: hashing and lookup *)

Lemma bits_eq8 (a b : Z) : 0 <= a < 256 -> 0 <= b < 256 ->
  (forall m, 0 <= m < 8 -> Z.testbit a m = Z.testbit b m) -> a = b.
Proof.
  intros Ha Hb H. apply Z.bits_inj'. intros n Hn.
  destruct (Z_lt_le_dec n 8) as [Hn8|Hn8]; [apply H; lia|].
  rewrite !testbit_const_high by lia. reflexivity.
Qed.

Lemma size_t_of_int8_low (b m : Z) : 0 <= b < 256 -> 0 <= m < 8 ->
  Z.testbit (size_t_of_int8 b) m = Z.testbit b m.
Proof.
  intros Hb Hm. unfold size_t_of_int8.
  rewrite Z.mod_pow2_bits_low by lia.
  destruct (b <? 128); [reflexivity|].
  rewrite <- (Z.mod_pow2_bits_low (b - 256) 8 m) by lia.
  replace (b - 256) with (b + (-1) * 2 ^ 8) by (cbn; lia).
  rewrite Z_mod_plus_full. rewrite Z.mod_small by (cbn; lia). reflexivity.
Qed.

Lemma CellHash_bits (a : Cell) (n : Z) :
  (nat_of_ascii (ch a) < 128)%nat -> 0 <= co a < 256 -> 0 <= n < 16 ->
  Z.testbit (CellHash a) n =
    if n <? 8 then Z.testbit (Z.of_nat (nat_of_ascii (ch a))) n
    else Z.testbit (co a) (n - 8).
Proof.
  intros Hk Hc Hn. unfold CellHash.
  set (kb := Z.of_nat (nat_of_ascii (ch a))).
  assert (Hkb : 0 <= kb < 128) by (subst kb; lia).
  replace (size_t_of_int8 kb) with kb
    by (unfold size_t_of_int8; rewrite (proj2 (Z.ltb_lt kb 128)) by lia;
        rewrite Z.mod_small by (cbn; lia); reflexivity).
  rewrite Z.lor_spec, Z.mod_pow2_bits_low by lia.
  destruct (Z.ltb_spec n 8).
  - rewrite Z.shiftl_spec_low by lia. apply orb_false_r.
  - rewrite Z.shiftl_spec_high by lia. rewrite testbit_const_high by lia. cbn [orb].
    apply size_t_of_int8_low; lia.
Qed.

Lemma CellHash_signed_glyph (k : ascii) (c : Z) :
  (128 <= nat_of_ascii k)%nat ->
  CellHash (mkCell k c) = size_t_of_int8 (Z.of_nat (nat_of_ascii k)).
Proof.
  intros Hk. unfold CellHash. cbn [ch co].
  set (kb := Z.of_nat (nat_of_ascii k)).
  assert (Hkb : 128 <= kb < 256)
    by (subst kb; pose proof (nat_ascii_bounded k); lia).
  assert (Hv : size_t_of_int8 kb = kb - 256 + 2 ^ 64).
  { unfold size_t_of_int8. rewrite (proj2 (Z.ltb_ge kb 128)) by lia.
    symmetry. apply Z.mod_unique with (q := -1); [left|]; cbn; lia. }
  apply Z.bits_inj'. intros n Hn. rewrite Z.lor_spec.
  destruct (Z_lt_le_dec n 64) as [H64|H64].
  - rewrite Z.mod_pow2_bits_low by lia.
    destruct (Z_lt_le_dec n 8) as [H8|H8].
    + rewrite Z.shiftl_spec_low by lia. apply orb_false_r.
    + assert (Ht : Z.testbit (size_t_of_int8 kb) n = true).
      { rewrite Hv. replace n with ((n - 8) + 8) by lia.
        rewrite <- Z.shiftr_spec by lia. rewrite Z.shiftr_div_pow2 by lia.
        replace ((kb - 256 + 2 ^ 64) / 2 ^ 8) with (Z.ones 56).
        - apply Z.ones_spec_low. lia.
        - rewrite Z.ones_equiv. apply Z.div_unique with (r := kb); [left|]; cbn; lia. }
      rewrite Ht. reflexivity.
  - rewrite Z.mod_pow2_bits_high by lia. rewrite orb_false_r. reflexivity.
Qed.

Lemma cell_eqb_spec (a b : Cell) : cell_eqb a b = true <-> a = b.
Proof.
  destruct a as [k c], b as [k' c']. unfold cell_eqb. cbn [ch co].
  rewrite andb_true_iff, Ascii.eqb_eq, Z.eqb_eq. split.
  - intros [-> ->]. reflexivity.
  - intros H. injection H as -> ->. auto.
Qed.

(** X1: [CellHash] tells apart any two cells whose glyphs are ASCII
    (0..127, which includes EMPTY and BLOCK): equal hashes mean equal cells,
    the same equality as [Cell::operator==]. *)
Theorem CellHash_injective_ascii (a b : Cell) :
  (nat_of_ascii (ch a) < 128)%nat -> (nat_of_ascii (ch b) < 128)%nat ->
  0 <= co a < 256 -> 0 <= co b < 256 ->
  (CellHash a = CellHash b <-> a = b) /\ (cell_eqb a b = true <-> a = b).
Proof.
  intros Hka Hkb Hca Hcb. split; [|apply cell_eqb_spec].
  split; [|intros ->; reflexivity].
  intros Heq. destruct a as [k c], b as [k' c']. cbn [ch co] in *.
  assert (Hch : Z.of_nat (nat_of_ascii k) = Z.of_nat (nat_of_ascii k')).
  { apply bits_eq8; try lia. intros m Hm.
    pose proof (CellHash_bits (mkCell k c) m Hka Hca ltac:(lia)) as E1.
    pose proof (CellHash_bits (mkCell k' c') m Hkb Hcb ltac:(lia)) as E2.
    cbn [ch co] in E1, E2. rewrite (proj2 (Z.ltb_lt m 8)) in E1, E2 by lia.
    rewrite <- E1, <- E2, Heq. reflexivity. }
  assert (Hco : c = c').
  { apply bits_eq8; try lia. intros m Hm.
    pose proof (CellHash_bits (mkCell k c) (m + 8) Hka Hca ltac:(lia)) as E1.
    pose proof (CellHash_bits (mkCell k' c') (m + 8) Hkb Hcb ltac:(lia)) as E2.
    cbn [ch co] in E1, E2. rewrite (proj2 (Z.ltb_ge (m + 8) 8)) in E1, E2 by lia.
    replace (m + 8 - 8) with m in E1, E2 by lia.
    rewrite <- E1, <- E2, Heq. reflexivity. }
  apply Nat2Z.inj in Hch.
  rewrite <- (ascii_nat_embedding k), <- (ascii_nat_embedding k'), Hch, Hco.
  reflexivity.
Qed.

(** X2: for a glyph byte of 128 or more (a negative [char]) the sign
    extension fills every bit the colour would use, so [CellHash] ignores the
    colour: all such keys with the same glyph share one hash value. *)
Theorem CellHash_ignores_colour (k : ascii) (c1 c2 : Z) :
  (128 <= nat_of_ascii k)%nat -> CellHash (mkCell k c1) = CellHash (mkCell k c2).
Proof. intros Hk. rewrite !CellHash_signed_glyph by exact Hk. reflexivity. Qed.

(** ** The buffer size *)

Lemma setCell_length (s : Plot) (x y color : Z) (k : ascii) :
  length (printBuf (setCell s x y color k)) = length (printBuf s).
Proof.
  unfold setCell. destruct (_ || _); [reflexivity|]. cbv zeta.
  destruct (cell_at s x y); [|reflexivity].
  cbn [printBuf with_buf]. apply length_insert.
Qed.

Lemma apply_writes_length (ws : list write) :
  forall t, length (printBuf (apply_writes t ws)) = length (printBuf t).
Proof.
  induction ws as [|[[[x y] c] k] ws IH]; intros t; [reflexivity|].
  change (apply_writes t ((x, y, c, k) :: ws)) with (apply_writes (setCell t x y c k) ws).
  rewrite IH. apply setCell_length.
Qed.

Lemma same_frame_wh (s t : Plot) : same_frame s t -> w t = w s /\ h t = h s.
Proof. unfold same_frame. intros <-. split; reflexivity. Qed.

Lemma render_alloc_ok (s : Plot) : alloc_ok s -> alloc_ok (render s).
Proof.
  unfold alloc_ok. intros H.
  destruct (same_frame_wh _ _ (render_frame s)) as [Ew Eh].
  rewrite Ew, Eh, render_writes_eq, apply_writes_length.
  unfold render_window. destruct (range s); exact H.
Qed.

Lemma point_alloc_ok (s : Plot) (x y : Q) (color : Z) (k : ascii) :
  alloc_ok s -> alloc_ok (point s x y color k).
Proof.
  unfold alloc_ok, point. cbn [range with_data]. intros H. destruct (range s); [|exact H].
  set (t := with_data s _ _).
  destruct (same_frame_wh _ _ (printPoint_frame t (mkPoint x y) color k)) as [Ew Eh].
  rewrite Ew, Eh, (printPoint_writes t t _ _ _ (same_frame_refl t)), apply_writes_length.
  exact H.
Qed.

Lemma line_alloc_ok (s : Plot) (x1 y1 x2 y2 : Q) (color : Z) (k : ascii) :
  alloc_ok s -> alloc_ok (line s x1 y1 x2 y2 color k).
Proof.
  unfold alloc_ok, line. cbn [range with_data]. intros H. destruct (range s); [|exact H].
  set (t := with_data s _ _).
  destruct (same_frame_wh _ _ (printLine_frame t (mkLine (mkPoint x1 y1) (mkPoint x2 y2))
    color k)) as [Ew Eh].
  rewrite Ew, Eh, (printLine_writes t t _ _ _ (same_frame_refl t)), apply_writes_length.
  exact H.
Qed.

Lemma setSize_alloc_ok (s : Plot) (l n : Z) : alloc_ok (setSize s l n).
Proof.
  unfold alloc_ok, setSize, clearPlot. cbn. rewrite length_map, repeat_length. reflexivity.
Qed.

Lemma api_alloc_ok (s t : Plot) (c : api_call) :
  alloc_ok s -> api s c = Some t -> alloc_ok t.
Proof.
  intros Hs Hc. destruct c; cbn [api] in Hc;
    try (injection Hc as <-).
  - apply point_alloc_ok, Hs.
  - apply line_alloc_ok, Hs.
  - apply render_alloc_ok, Hs.
  - unfold setSize_exn in Hc. destruct (_ <? 0); [discriminate|].
    injection Hc as <-. apply setSize_alloc_ok.
  - unfold alloc_ok, setDrawRange, clearPlot. cbn. rewrite length_map. exact Hs.
  - exact Hs.
  - unfold alloc_ok, clearData, clearPlot. cbn. rewrite length_map. exact Hs.
  - exact Hs.
Qed.

Lemma run_calls_alloc_ok (calls : list api_call) :
  forall s t, alloc_ok s -> run_calls s calls = Some t -> alloc_ok t.
Proof.
  induction calls as [|c calls IH]; intros s t Hs Hr.
  - injection Hr as <-. exact Hs.
  - cbn [run_calls] in Hr. destruct (api s c) as [s'|] eqn:E; [|discriminate].
    exact (IH s' t (api_alloc_ok s s' c Hs E) Hr).
Qed.

(** X5: every public call keeps the buffer at exactly as many cells as
    [new Cell[w*h]] allocates for the current [w] and [h] ([w*h] an [int]
    product); a [setSize] whose count is negative throws, and the other
    calls never grow or shrink the buffer. *)
Theorem api_keeps_buffer_size (calls : list api_call) (s t : Plot) :
  alloc_ok s -> run_calls s calls = Some t ->
  length (printBuf t) = Z.to_nat (alloc_count (w t) (h t)).
Proof. apply run_calls_alloc_ok. Qed.

Lemma make_plot_alloc_ok (l n : Z) : alloc_ok (make_plot l n).
Proof. apply setSize_alloc_ok. Qed.

Lemma int32_le (z : Z) : - 2 ^ 31 <= z -> int32 z <= z.
Proof.
  intros H. unfold int32.
  pose proof (Z.mod_le (z + 2 ^ 31) (2 ^ 32) ltac:(lia) ltac:(lia)). lia.
Qed.

(** X6: on a plot made by [Plot(length, lines)] and changed by any sequence
    of public calls that throws no exception, while [w*h] fits in an [int],
    the index [x+(y/2)*w] that [setCell] computes for an in-bounds [(x, y)]
    always falls inside the buffer. *)
Theorem setCell_index_in_buffer (l n : Z) (calls : list api_call) (t : Plot) (x y : Z) :
  0 <= alloc_count l n -> run_calls (make_plot l n) calls = Some t ->
  0 <= w t * h t < 2 ^ 31 -> in_bounds t x y = true ->
  exists c, cell_at t x y = Some c.
Proof.
  intros _ Hr Hwh Hb.
  pose proof (run_calls_alloc_ok calls _ _ (make_plot_alloc_ok l n) Hr) as Hok.
  unfold alloc_ok, alloc_count in Hok. rewrite int32_id in Hok by lia.
  apply in_bounds_iff in Hb.
  assert (Hh : 0 <= h t) by nia.
  assert (Hy : y < h t * 2) by (pose proof (int32_le (h t * 2) ltac:(lia)); lia).
  assert (Hq : Z.quot y 2 = y / 2) by (apply Z.quot_div_nonneg; lia).
  assert (0 <= y / 2 < h t) by (split; [apply Z.div_pos | apply Z.div_lt_upper_bound]; lia).
  assert (0 <= y / 2 * w t /\ y / 2 * w t + w t <= w t * h t) by nia.
  unfold cell_at, cell_index, cell_offset. rewrite Hq.
  rewrite (int32_id (y / 2 * w t)) by lia. rewrite (int32_id (x + y / 2 * w t)) by lia.
  rewrite (proj2 (Z.ltb_ge _ _)) by lia.
  apply lookup_lt_is_Some. rewrite Hok. lia.
Qed.

(** ** The number of cells [printLine] writes *)

Lemma walk_count_cons (P Q : Z * Z -> Prop) (p : Z * Z) (cs : list (Z * Z)) :
  P p -> (forall c, Q c -> P c) -> (forall c, Q c -> c <> p) ->
  Forall Q cs -> NoDup cs -> Forall P (p :: cs) /\ NoDup (p :: cs).
Proof.
  intros Hp HQP Hne Hall Hnd. split.
  - constructor; [exact Hp|]. eapply List.Forall_impl; [exact HQP | exact Hall].
  - constructor; [|exact Hnd]. intros Hin. apply list_elem_of_In in Hin.
    rewrite List.Forall_forall in Hall. exact (Hne p (Hall p Hin) eq_refl).
Qed.

Ltac count_step IH x' y' e' ra' rb' Hsx Hsy :=
  destruct (IH x' y' e' ra' rb') as [cs [Hc [Hlen [Hall Hnd]]]]; try lia;
  eexists; rewrite Hc; split; [reflexivity|];
  split; [cbn [length]; rewrite Hlen; lia|];
  refine (walk_count_cons _ _ _ cs _ _ _ Hall Hnd);
  [ cbv beta; cbn [fst snd]; lia
  | intros [? ?] ?; cbv beta in *; cbn [fst snd] in *;
    destruct Hsx as [-> | ->]; destruct Hsy as [-> | ->]; lia
  | intros [? ?] ? [= -> ->]; cbv beta in *; cbn [fst snd] in *;
    destruct Hsx as [-> | ->]; destruct Hsy as [-> | ->]; lia ].

(** With [D = e - dx + dy], [-dx <= 2D <= dx] holds on every iteration when
    [dy <= dx], and [-dy < D <= 0] when [dx < dy]: the first case steps in x
    every time, the second in y. *)
Lemma walk_exact_count (DX DY sx sy x2 y2 : Z) :
  0 <= DX -> 0 <= DY -> (sx = 1 \/ sx = -1) -> (sy = 1 \/ sy = -1) ->
  forall fuel x y e ra rb,
  0 <= ra <= DX -> 0 <= rb <= DY -> x2 = x + sx * ra -> y2 = y + sy * rb ->
  e = DX * (1 + (DY - rb)) - DY * (1 + (DX - ra)) ->
  (DY <= DX -> - DX <= 2 * (e - DX + DY) <= DX) ->
  (DX < DY -> - DY < e - DX + DY <= 0) ->
  (Z.to_nat (ra + rb) < fuel)%nat ->
  exists cs, walk_exact fuel x y x2 y2 DX DY sx sy e = Some cs /\
    length cs = S (Z.to_nat (if DY <=? DX then ra else rb)) /\
    Forall (fun c => walk_major DX DY sx sy c >= walk_major DX DY sx sy (x, y)) cs /\
    NoDup cs.
Proof.
  intros HDX HDY Hsx Hsy. unfold walk_major.
  destruct (Z.le_gt_cases DY DX) as [Hcase|Hcase];
    [rewrite (proj2 (Z.leb_le DY DX) Hcase) | rewrite (proj2 (Z.leb_gt DY DX) Hcase)];
  (induction fuel as [|fuel IH]; intros x y e ra rb Hra Hrb Hx Hy He HA HB Hf; [lia|]);
  cbn [walk_exact];
  (destruct ((x =? x2) && (y =? y2)) eqn:Hend;
   [ apply andb_true_iff in Hend as [H1 H2]; apply Z.eqb_eq in H1, H2;
     assert (ra = 0) by (destruct Hsx; subst; lia);
     assert (rb = 0) by (destruct Hsy; subst; lia);
     subst ra rb; exists [(x, y)]; split; [reflexivity|]; split; [reflexivity|];
     split; [constructor; [lia | constructor] | apply NoDup_singleton]
   | ]).
  all: assert (Hne : ra <> 0 \/ rb <> 0);
    [ destruct (Z.eq_dec ra 0), (Z.eq_dec rb 0); [|lia..];
      subst ra rb; rewrite !Z.mul_0_r, !Z.add_0_r in *; subst;
      rewrite !Z.eqb_refl in Hend; discriminate | ].
  all: pose proof (walk_x_no_overshoot DX DY ra rb e) as W1;
    pose proof (walk_y_no_overshoot DX DY ra rb e) as W2;
    pose proof (walk_progress DX DY ra rb e) as W3.
  all: destruct (e >? - DY) eqn:Ex; destruct (e * 2 <? DX) eqn:Ey;
      [apply Z.gtb_lt in Ex; apply Z.ltb_lt in Ey ..
      |apply Z.gtb_lt in Ex; apply Z.ltb_ge in Ey
      |rewrite Z.gtb_ltb in Ex; apply Z.ltb_ge in Ex; apply Z.ltb_lt in Ey
      |rewrite Z.gtb_ltb in Ex; apply Z.ltb_ge in Ex; apply Z.ltb_ge in Ey].
  all: try (exfalso; lia).
  all: first
    [ count_step IH (x + sx) (y + sy) (e - DY + DX) (ra - 1) (rb - 1) Hsx Hsy
    | count_step IH (x + sx) y (e - DY) (ra - 1) rb Hsx Hsy
    | count_step IH x (y + sy) (e + DX) ra (rb - 1) Hsx Hsy ].
Qed.

Lemma cells_exact_count (x1 y1 x2 y2 : Z) :
  exists cs, cells_exact x1 y1 x2 y2 = Some cs /\
    length cs = S (Z.to_nat (Z.max (Z.abs (x2 - x1)) (Z.abs (y2 - y1)))) /\ NoDup cs.
Proof.
  unfold cells_exact.
  destruct (walk_exact_count (Z.abs (x2 - x1)) (Z.abs (y2 - y1))
    (if x1 <? x2 then 1 else -1) (if y1 <? y2 then 1 else -1) x2 y2)
    with (fuel := S (Z.to_nat (Z.abs (x2 - x1) + Z.abs (y2 - y1)))) (x := x1) (y := y1)
         (e := Z.abs (x2 - x1) - Z.abs (y2 - y1))
         (ra := Z.abs (x2 - x1)) (rb := Z.abs (y2 - y1))
    as [cs [Hc [Hl [_ Hnd]]]];
    try lia; try solve [destruct (x1 <? x2); auto]; try solve [destruct (y1 <? y2); auto].
  - destruct (x1 <? x2) eqn:E; [apply Z.ltb_lt in E | apply Z.ltb_ge in E]; lia.
  - destruct (y1 <? y2) eqn:E; [apply Z.ltb_lt in E | apply Z.ltb_ge in E]; lia.
  - exists cs. split; [exact Hc|]. split; [|exact Hnd]. rewrite Hl.
    destruct (Z.leb_spec (Z.abs (y2 - y1)) (Z.abs (x2 - x1))); lia.
Qed.

Lemma line_cells_count (x1 y1 x2 y2 : Z) :
  - 2 ^ 31 <= x1 < 2 ^ 31 -> - 2 ^ 31 <= y1 < 2 ^ 31 ->
  - 2 ^ 31 <= x2 < 2 ^ 31 -> - 2 ^ 31 <= y2 < 2 ^ 31 ->
  Z.abs (x2 - x1) < 2 ^ 29 -> Z.abs (y2 - y1) < 2 ^ 29 ->
  exists cs, line_cells x1 y1 x2 y2 = Some cs /\
    length cs = S (Z.to_nat (Z.max (Z.abs (x2 - x1)) (Z.abs (y2 - y1)))) /\ NoDup cs.
Proof. intros. rewrite line_cells_exact by assumption. apply cells_exact_count. Qed.

(** X9: for a segment whose endpoints map to [(x1,y1)] and [(x2,y2)] with
    [|x2-x1|] and [|y2-y1|] below [2^29], [printLine] calls [setCell]
    exactly [max(|x2-x1|, |y2-y1|) + 1] times, each time on a different
    cell. *)
Theorem printLine_cell_count (s : Plot) (l : Line) (color : Z) (character : ascii)
  (x1 y1 x2 y2 : Z) :
  map_x s (la l) = Some x1 -> map_y s (la l) = Some y1 ->
  map_x s (lb l) = Some x2 -> map_y s (lb l) = Some y2 ->
  Z.abs (x2 - x1) < 2 ^ 29 -> Z.abs (y2 - y1) < 2 ^ 29 ->
  exists cs, printLine s l color character = setCells s cs color character /\
    length cs = S (Z.to_nat (Z.max (Z.abs (x2 - x1)) (Z.abs (y2 - y1)))) /\ NoDup cs.
Proof.
  intros Hx1 Hy1 Hx2 Hy2 Hdx Hdy.
  destruct (line_cells_count x1 y1 x2 y2) as [cs [Hc Hrest]];
    [eapply map_x_range; eassumption | eapply map_y_range; eassumption
    |eapply map_x_range; eassumption | eapply map_y_range; eassumption
    |exact Hdx | exact Hdy|].
  exists cs. split; [|exact Hrest].
  unfold printLine. rewrite Hx1, Hy1, Hx2, Hy2, Hc. reflexivity.
Qed.

(** ** Printing *)

Lemma print_cells_some (buf : list Cell) :
  forall n i first last, (i + n <= length buf)%nat ->
  exists r, print_cells buf i n first last = Some r.
Proof.
  induction n as [|n IH]; intros i first last Hn; [exists []; reflexivity|].
  cbn [print_cells].
  destruct (lookup_lt_is_Some_2 buf i) as [c Hc]; [lia|]. rewrite Hc.
  match goal with
  | |- exists r, match print_cells buf (S i) n false ?l with _ => _ end = _ =>
      destruct (IH (S i) false l) as [r Hr]; [lia|]; rewrite Hr
  end.
  eexists. reflexivity.
Qed.

Lemma print_row_some (s : Plot) (y : Z) :
  buf_ok s -> 0 <= y < h s -> exists b, print_row s y = Some (b ++ ["010"%char]).
Proof.
  unfold buf_ok, print_row. intros Hok Hy.
  destruct (print_cells_some (printBuf s) (Z.to_nat (w s)) (Z.to_nat (y * w s)) true 0)
    as [r Hr].
  { rewrite Hok. destruct (Z.le_gt_cases 0 (w s)).
    - assert (0 <= y * w s /\ y * w s + w s <= w s * h s) by nia. lia.
    - assert (y * w s <= 0) by nia. lia. }
  rewrite Hr. eexists. reflexivity.
Qed.

Lemma print_all_rows_Forall2 (s : Plot) (ys : list Z) (rs : list (list ascii)) :
  Forall2 (fun y r => print_row s y = Some r) ys rs -> print_all_rows s ys = Some (concat rs).
Proof.
  induction 1 as [|y r ys rs Hr _ IH]; [reflexivity|].
  cbn [print_all_rows concat]. rewrite Hr, IH. reflexivity.
Qed.

Lemma Forall2_rev_lists {A B} (R : A -> B -> Prop) (l : list A) (k : list B) :
  Forall2 R l k -> Forall2 R (rev l) (rev k).
Proof.
  induction 1; cbn [rev]; [constructor|].
  apply Forall2_app; [assumption | constructor; [assumption | constructor]].
Qed.

Lemma print_rows_exist (s : Plot) (ys : list Z) :
  buf_ok s -> Forall (fun y => 0 <= y < h s) ys ->
  exists rs, Forall2 (fun y r => print_row s y = Some r) ys rs /\
    Forall (fun r => exists b, r = b ++ ["010"%char]) rs.
Proof.
  intros Hok. induction 1 as [|y ys Hy _ IH]; [exists []; split; constructor|].
  destruct IH as [rs [H1 H2]]. destruct (print_row_some s y Hok Hy) as [b Hb].
  exists ((b ++ ["010"%char]) :: rs). split; constructor; eauto.
Qed.

Lemma lookup_map_seq (n : nat) :
  forall start k, (k < n)%nat ->
  map Z.of_nat (seq start n) !! k = Some (Z.of_nat (start + k)).
Proof.
  induction n as [|n IH]; intros start k Hk; [lia|].
  destruct k as [|k]; cbn [seq map].
  - rewrite Nat.add_0_r. reflexivity.
  - cbn [lookup list_lookup]. rewrite IH by lia. do 2 f_equal. lia.
Qed.

Lemma lookup_rev_list {A} (l : list A) (k : nat) :
  (k < length l)%nat -> rev l !! k = l !! (length l - S k)%nat.
Proof. intros Hk. rewrite rev_alt. apply reverse_lookup. exact Hk. Qed.





Lemma print_rows_range (s : Plot) :
  Forall (fun y => 0 <= y < h s) (map Z.of_nat (seq 0 (Z.to_nat (h s)))).
Proof.
  apply List.Forall_forall. intros y Hy. apply in_map_iff in Hy as [j [<- Hj]].
  apply in_seq in Hj. lia.
Qed.

(** X10: with a buffer of [w*h] cells and [h >= 0], [print] always finishes:
    it writes [h] rows, each ended by a newline, then resets the colours; with
    the Y axis inverted it writes the same rows in reverse order. *)
Theorem print_rows_reversed (s : Plot) :
  buf_ok s -> 0 <= h s ->
  exists rs, length rs = Z.to_nat (h s) /\
    Forall (fun r => exists b, r = b ++ ["010"%char]) rs /\
    print_plain (invertYAxis s false) = Some (concat rs ++ reset_colours) /\
    print_plain (invertYAxis s true) = Some (concat (rev rs) ++ reset_colours).
Proof.
  intros Hok Hh.
  destruct (print_rows_exist s _ Hok (print_rows_range s)) as [rs [H2 Hnl]].
  exists rs. split; [|split; [exact Hnl|]].
  { apply Forall2_length in H2. rewrite <- H2, length_map, length_seq. reflexivity. }
  unfold print_plain. cbn [h invertYAxis]. rewrite (proj2 (Z.ltb_ge (h s) 0) Hh).
  unfold print_rows. cbn [invertedY invertYAxis h].
  rewrite (print_all_rows_Forall2 _ _ rs), (print_all_rows_Forall2 _ _ (rev rs)).
  - split; reflexivity.
  - apply Forall2_rev_lists. eapply Forall2_impl; [exact H2|]. intros y r Hr. exact Hr.
  - eapply Forall2_impl; [exact H2|]. intros y r Hr. exact Hr.
Qed.


(** X12: the sub-row [y] that [setCell] writes lands in the printed row of
    buffer row [y/2], in the upper or lower half of its cells; without
    inversion it is the [y]-th half-row from the top of the output, with
    [invertYAxis(true)] the [y]-th from the bottom. *)
Theorem subrow_screen_position (s : Plot) (y : Z) :
  0 <= y < 2 * h s ->
  exists k, print_rows s !! k = Some (Z.quot y 2) /\
    screen_half s k y = (if invertedY s then 2 * h s - 1 - y else y).
Proof.
  intros Hy. unfold print_rows, screen_half, sub_odd.
  assert (Hq : 0 <= Z.quot y 2 < h s) by (rewrite Z.quot_div_nonneg by lia; split;
    [apply Z.div_pos | apply Z.div_lt_upper_bound]; lia).
  pose proof (Z.quot_rem y 2 ltac:(lia)). pose proof (Z.rem_bound_pos y 2 ltac:(lia) ltac:(lia)).
  pose proof (Z.quot_rem (y + 1) 2 ltac:(lia)).
  pose proof (Z.rem_bound_pos (y + 1) 2 ltac:(lia) ltac:(lia)).
  set (Hn := Z.to_nat (h s)).
  destruct (invertedY s).
  - exists (Hn - 1 - Z.to_nat (Z.quot y 2))%nat. split.
    + rewrite lookup_rev_list by (rewrite length_map, length_seq; lia).
      rewrite length_map, length_seq, lookup_map_seq by lia. f_equal. lia.
    + destruct (Z.rem (y + 1) 2 =? 0) eqn:E; cbn [negb];
        [apply Z.eqb_eq in E | apply Z.eqb_neq in E]; unfold Hn; lia.
  - exists (Z.to_nat (Z.quot y 2)). split.
    + rewrite lookup_map_seq by lia. f_equal. lia.
    + destruct (Z.rem y 2 =? 0) eqn:E; cbn [negb];
        [apply Z.eqb_eq in E | apply Z.eqb_neq in E]; lia.
Qed.

(** ** Instances of the additional theorems *)

Lemma CellHash_injective_ascii_witness :
  (nat_of_ascii "x"%char < 128)%nat /\ (nat_of_ascii "o"%char < 128)%nat /\
  0 <= RED < 256 /\ 0 <= GREEN < 256 /\
  (CellHash (mkCell "x"%char RED) = CellHash (mkCell "o"%char GREEN) <->
     mkCell "x"%char RED = mkCell "o"%char GREEN) /\
  (cell_eqb (mkCell "x"%char RED) (mkCell "o"%char GREEN) = true <->
     mkCell "x"%char RED = mkCell "o"%char GREEN).
Proof.
  assert (H1 : (nat_of_ascii "x"%char < 128)%nat) by (apply Nat.ltb_lt; reflexivity).
  assert (H2 : (nat_of_ascii "o"%char < 128)%nat) by (apply Nat.ltb_lt; reflexivity).
  assert (H3 : 0 <= RED < 256) by (cbv [RED]; lia).
  assert (H4 : 0 <= GREEN < 256) by (cbv [GREEN]; lia).
  split; [exact H1|]. split; [exact H2|]. split; [exact H3|]. split; [exact H4|].
  exact (CellHash_injective_ascii (mkCell "x"%char RED) (mkCell "o"%char GREEN) H1 H2 H3 H4).
Defined.

Lemma CellHash_ignores_colour_witness :
  (128 <= nat_of_ascii "200"%char)%nat /\
  CellHash (mkCell "200"%char RED) = CellHash (mkCell "200"%char GREEN).
Proof.
  assert (H : (128 <= nat_of_ascii "200"%char)%nat) by (apply Nat.leb_le; reflexivity).
  split; [exact H|]. exact (CellHash_ignores_colour "200"%char RED GREEN H).
Defined.

Lemma api_keeps_buffer_size_witness :
  alloc_ok (make_plot 4 2) /\
  run_calls (make_plot 4 2) sample_calls = Some (clearData (setSize (invertYAxis
    (render (point (line (setDrawRange (make_plot 4 2) 0 0 4 4) 0 0 3 3 RED BLOCK)
       1 2 GREEN "x"%char)) true) 3 3)) /\
  length (printBuf (clearData (setSize (invertYAxis
    (render (point (line (setDrawRange (make_plot 4 2) 0 0 4 4) 0 0 3 3 RED BLOCK)
       1 2 GREEN "x"%char)) true) 3 3))) = 9%nat.
Proof.
  assert (H1 : alloc_ok (make_plot 4 2)) by (vm_compute; reflexivity).
  assert (H2 : run_calls (make_plot 4 2) sample_calls = Some (clearData (setSize (invertYAxis
    (render (point (line (setDrawRange (make_plot 4 2) 0 0 4 4) 0 0 3 3 RED BLOCK)
       1 2 GREEN "x"%char)) true) 3 3))) by reflexivity.
  split; [exact H1|]. split; [exact H2|].
  rewrite (api_keeps_buffer_size sample_calls _ _ H1 H2). vm_compute. reflexivity.
Defined.

Lemma setCell_index_in_buffer_witness :
  0 <= alloc_count 4 2 /\
  run_calls (make_plot 4 2) (firstn 4 sample_calls) =
    Some (render (point (line (setDrawRange (make_plot 4 2) 0 0 4 4) 0 0 3 3 RED BLOCK)
       1 2 GREEN "x"%char)) /\
  0 <= w (render (point (line (setDrawRange (make_plot 4 2) 0 0 4 4) 0 0 3 3 RED BLOCK)
       1 2 GREEN "x"%char)) * h (render (point (line (setDrawRange (make_plot 4 2) 0 0 4 4)
       0 0 3 3 RED BLOCK) 1 2 GREEN "x"%char)) < 2 ^ 31 /\
  in_bounds (render (point (line (setDrawRange (make_plot 4 2) 0 0 4 4) 0 0 3 3 RED BLOCK)
       1 2 GREEN "x"%char)) 3 3 = true /\
  exists c, cell_at (render (point (line (setDrawRange (make_plot 4 2) 0 0 4 4)
       0 0 3 3 RED BLOCK) 1 2 GREEN "x"%char)) 3 3 = Some c.
Proof.
  assert (H0 : 0 <= alloc_count 4 2) by (vm_compute; discriminate).
  assert (H1 : run_calls (make_plot 4 2) (firstn 4 sample_calls) =
    Some (render (point (line (setDrawRange (make_plot 4 2) 0 0 4 4) 0 0 3 3 RED BLOCK)
       1 2 GREEN "x"%char))) by reflexivity.
  assert (H2 : 0 <= w (render (point (line (setDrawRange (make_plot 4 2) 0 0 4 4)
       0 0 3 3 RED BLOCK) 1 2 GREEN "x"%char)) * h (render (point (line
       (setDrawRange (make_plot 4 2) 0 0 4 4) 0 0 3 3 RED BLOCK) 1 2 GREEN "x"%char))
       < 2 ^ 31) by (vm_compute; split; congruence).
  assert (H3 : in_bounds (render (point (line (setDrawRange (make_plot 4 2) 0 0 4 4)
       0 0 3 3 RED BLOCK) 1 2 GREEN "x"%char)) 3 3 = true) by (vm_compute; reflexivity).
  split; [exact H0|]. split; [exact H1|]. split; [exact H2|]. split; [exact H3|].
  exact (setCell_index_in_buffer 4 2 (firstn 4 sample_calls) _ 3 3 H0 H1 H2 H3).
Defined.

Lemma printLine_cell_count_witness :
  map_x (setDrawRange (make_plot 4 2) 0 0 4 4) (mkPoint 0 0) = Some 0 /\
  map_y (setDrawRange (make_plot 4 2) 0 0 4 4) (mkPoint 0 0) = Some 0 /\
  map_x (setDrawRange (make_plot 4 2) 0 0 4 4) (mkPoint 3 1) = Some 3 /\
  map_y (setDrawRange (make_plot 4 2) 0 0 4 4) (mkPoint 3 1) = Some 1 /\
  exists cs,
    printLine (setDrawRange (make_plot 4 2) 0 0 4 4) (mkLine (mkPoint 0 0) (mkPoint 3 1))
      RED BLOCK = setCells (setDrawRange (make_plot 4 2) 0 0 4 4) cs RED BLOCK /\
    length cs = S (Z.to_nat (Z.max (Z.abs (3 - 0)) (Z.abs (1 - 0)))) /\ NoDup cs.
Proof.
  split; [vm_compute; reflexivity|]. split; [vm_compute; reflexivity|].
  split; [vm_compute; reflexivity|]. split; [vm_compute; reflexivity|].
  apply (printLine_cell_count (setDrawRange (make_plot 4 2) 0 0 4 4)
           (mkLine (mkPoint 0 0) (mkPoint 3 1)) RED BLOCK 0 0 3 1);
    try (vm_compute; reflexivity); lia.
Defined.

Lemma print_rows_reversed_witness :
  buf_ok sample_plot /\ 0 <= h sample_plot /\
  exists rs, length rs = Z.to_nat (h sample_plot) /\
    Forall (fun r => exists b, r = b ++ ["010"%char]) rs /\
    print_plain (invertYAxis sample_plot false) = Some (concat rs ++ reset_colours) /\
    print_plain (invertYAxis sample_plot true) = Some (concat (rev rs) ++ reset_colours).
Proof.
  assert (H1 : buf_ok sample_plot) by (vm_compute; reflexivity).
  assert (H2 : 0 <= h sample_plot) by (apply Z.leb_le; vm_compute; reflexivity).
  split; [exact H1|]. split; [exact H2|]. exact (print_rows_reversed sample_plot H1 H2).
Defined.


Lemma subrow_screen_position_witness :
  0 <= 1 < 2 * h (invertYAxis sample_plot true) /\
  exists k, print_rows (invertYAxis sample_plot true) !! k = Some (Z.quot 1 2) /\
    screen_half (invertYAxis sample_plot true) k 1 =
      (if invertedY (invertYAxis sample_plot true)
       then 2 * h (invertYAxis sample_plot true) - 1 - 1 else 1).
Proof.
  assert (H : 0 <= 1 < 2 * h (invertYAxis sample_plot true))
    by (split; [lia | apply Z.ltb_lt; vm_compute; reflexivity]).
  split; [exact H|]. exact (subrow_screen_position (invertYAxis sample_plot true) 1 H).
Defined.

End SCP.
